(** * Solana wallet tracker CLI: a shallow embedding of [src/index.js]

    The source file holds two variants of the same program (the first one
    prints one card per trade and caches token images, the second one
    validates its configuration and prints one box per transaction).  Both
    are embedded; definitions that differ take a [variant] argument.

    Asynchronous functions are embedded in a trace-and-outcome monad: an
    [await] is a bind, a rejected promise is [Throw], [process.exit] is
    [Exit].  What the provider, the DEX parser and the file system answer
    is input: either an explicit argument or a field of [World]. *)

From Stdlib Require Import String Ascii List ZArith QArith Bool Lia.
Import ListNotations.
Local Set Warnings "-register-all".
Local Open Scope string_scope.
Local Open Scope Z_scope.

(** ** JavaScript values *)

Module JS.

Inductive error :=
| TypeError (msg : string)
| SyntaxError
| NetworkError
| LibraryError (msg : string).

(** Values as [JSON.parse] builds them, plus [undefined].  Numbers that
    the program reads (fee, limit, length, supply) are integral. *)
Inductive value :=
| Undefined
| Null
| Bool (b : bool)
| Num (n : Z)
| Str (s : string)
| Arr (items : list value)
| Obj (fields : list (string * value)).

Definition truthy (v : value) : bool :=
  match v with
  | Undefined | Null => false
  | Bool b => b
  | Num n => negb (n =? 0)
  | Str s => negb (String.eqb s "")
  | Arr _ | Obj _ => true
  end.

Definition nullish (v : value) : bool :=
  match v with
  | Undefined | Null => true
  | _ => false
  end.

(** Own property of an object literal; a repeated key keeps its last
    value, as [JSON.parse] does. *)
Definition lookup (k : string) (fields : list (string * value)) : value :=
  fold_left (fun acc p => if String.eqb k (fst p) then snd p else acc)
            fields Undefined.

(** [v.k] for a non-nullish [v] and, with [Undefined] for a nullish one,
    [v?.k].  The program only reads the names [method], [params],
    [result], [value], [signature], [length], [content], [metadata],
    [links], [name], [symbol], [image], [id], [tokenInfo], [supply] and
    [decimals]; among these only [length] is defined on strings and
    arrays. *)
Definition prop (v : value) (k : string) : value :=
  match v with
  | Obj fields => lookup k fields
  | Arr items =>
      if String.eqb k "length" then Num (Z.of_nat (List.length items))
      else Undefined
  | Str s =>
      if String.eqb k "length" then Num (Z.of_nat (String.length s))
      else Undefined
  | _ => Undefined
  end.

(** [a || b] *)
Definition or (a b : value) : value := if truthy a then a else b.

(** Characters of a string, as [for ... of] yields them. *)
Fixpoint chars (s : string) : list value :=
  match s with
  | EmptyString => []
  | String c rest => Str (String c EmptyString) :: chars rest
  end.

(** Whether the object has an own property of this name. *)
Definition hasKey (k : string) (fields : list (string * value)) : bool :=
  existsb (fun p => String.eqb k (fst p)) fields.

(** Whether [`${v}`] and [v + "..."] give a text.  A primitive always
    does.  An object that [JSON.parse] built has no method of its own, so
    it is converted by [Object.prototype.toString], unless it has an own
    property [toString]: that one is not callable, [valueOf] returns the
    object itself, and the conversion throws a TypeError.  An array is
    joined: [null] and [undefined] give the empty text and every other
    element is converted in turn. *)
Fixpoint convertible (v : value) : bool :=
  match v with
  | Arr items => forallb convertible items
  | Obj fields => negb (hasKey "toString" fields)
  | _ => true
  end.

(** Neither an array nor an object. *)
Definition primitive (v : value) : bool :=
  match v with
  | Arr _ | Obj _ => false
  | _ => true
  end.

End JS.

(** ** Configuration (CONFIG, lines 44-58 and 577-583) *)

Module CONFIG.
Definition MIN_SOL_AMOUNT : Q := (1 # 1000)%Q.
Definition SOL_MINT : string := "So11111111111111111111111111111111111111112".
Definition DEFAULT_TOKEN_ICON : string :=
  "https://raw.githubusercontent.com/solana-labs/token-list/main/assets/mainnet/So11111111111111111111111111111111111111112/logo.png".
End CONFIG.

Inductive variant := First | Second.

(** ** Data handed over by the libraries *)

(** [trade.inputToken] / [trade.outputToken] of solana-dex-parser. *)
Record token := mkToken {
  mint : string;
  amount : Q;
  price : option Q
}.

Record trade := mkTrade {
  inputToken : token;
  outputToken : token;
  amm : option string;
  tradeFee : option (Q * string)
}.

(** [tx.meta] of a parsed transaction: the fee in lamports and whether
    [meta.err] is set. *)
Record txMeta := mkMeta {
  fee : Z;
  err : bool
}.

Record parsedTx := mkTx {
  meta : option txMeta;
  blockTime : Z;
  raw : string
}.

(** What an HTTP POST to the provider comes back with. *)
Inductive http :=
| NetFail
| BadBody
| Body (json : JS.value).

(** ** What the program prints *)

(** [transactionData] of the first variant (lines 249-269); the numeric
    fields are kept as numbers, not as formatted text. *)
Record cardToken := mkCardToken {
  ct_image : string;
  ct_name : JS.value;
  ct_mint : string;
  ct_amount : Q;
  ct_price : Q
}.

Record card := mkCard {
  c_type : string;
  c_inputToken : cardToken;
  c_outputToken : cardToken;
  c_status : string;
  c_fee : Q;
  c_timestamp : Z;
  c_signature : JS.value
}.

(** One block of [transactionDetails] of the second variant (lines
    728-739). *)
Record tradeDetails := mkDetails {
  d_amm : JS.value;
  d_type : string;
  d_input : list (string * JS.value);
  d_inputAmount : Q;
  d_inputSymbol : JS.value;
  d_output : list (string * JS.value);
  d_outputAmount : Q;
  d_outputSymbol : JS.value;
  d_fee : option (Q * string)
}.

Record box := mkBox {
  b_type : string;
  b_signature : JS.value;
  b_timestamp : Z;
  b_failed : bool;
  b_fee : Q;
  b_details : list tradeDetails;
  b_border : string
}.

Inductive channel :=
| LogC | ErrorC | SpinStart | SpinSucceed | SpinFail | SpinInfo.

Inductive arg :=
| V (v : JS.value)
| E (e : JS.error).

(** Observable effects, in program order. *)
Inductive event :=
| Out (c : channel) (text : string) (args : list arg)
| RpcCall (method : string) (subject : string) (limit : option Z)
| GetParsedTransaction (signature : JS.value)
| ParseTrades (tx : parsedTx)
| PrintCard (c : card)
| PrintBox (b : box)
| WsConnect (id : nat)
| WsSend (id : nat) (method : string) (wallet : string)
| WsPing (id : nat)
| SetInterval (period : Z) (id : nat)
| SetTimeout (delay : Z)
| ClearScreen
| Splash
| Help
| Mkdir.

(** ** The effect monad *)

Inductive outcome (A : Type) :=
| Ok (a : A)
| Throw (e : JS.error)
| Exit (code : Z).
Arguments Ok {A} a.
Arguments Throw {A} e.
Arguments Exit {A} code.

Definition M (A : Type) : Type := (list event * outcome A)%type.

Definition ret {A} (a : A) : M A := ([], Ok a).

Definition bind {A B} (m : M A) (k : A -> M B) : M B :=
  match m with
  | (t, Ok a) => let (t', r) := k a in ((t ++ t')%list, r)
  | (t, Throw e) => (t, Throw e)
  | (t, Exit c) => (t, Exit c)
  end.

Definition emit (e : event) : M unit := ([e], Ok tt).
Definition throw {A} (e : JS.error) : M A := ([], Throw e).
Definition exit {A} (code : Z) : M A := ([], Exit code).

(** [try { m } catch (e) { h e }]; [process.exit] is not catchable. *)
Definition try_catch {A} (m : M A) (h : JS.error -> M A) : M A :=
  match m with
  | (t, Throw e) => let (t', r) := h e in ((t ++ t')%list, r)
  | other => other
  end.

Notation "x <- m ;; k" := (bind m (fun x => k))
  (at level 61, m at next level, right associativity).
Notation "m ;; k" := (bind m (fun _ => k))
  (at level 61, right associativity).

Definition out (c : channel) (text : string) (args : list arg) : M unit :=
  emit (Out c text args).

Definition trace {A} (m : M A) : list event := fst m.
Definition result {A} (m : M A) : outcome A := snd m.

(** [for (const x of l) { await body x }] *)
Fixpoint forEach {A} (l : list A) (body : A -> M unit) : M unit :=
  match l with
  | [] => ret tt
  | x :: rest => body x ;; forEach rest body
  end.

(** [v.k], which throws on [null] and [undefined]. *)
Definition get (v : JS.value) (k : string) : M JS.value :=
  if JS.nullish v
  then throw (JS.TypeError "Cannot read properties of null or undefined")
  else ret (JS.prop v k).

(** [await response.json()] after [await fetch(...)]. *)
Definition responseJson (r : http) : M JS.value :=
  match r with
  | NetFail => throw JS.NetworkError
  | BadBody => throw JS.SyntaxError
  | Body v => ret v
  end.

(** ** The transaction card (createTransactionCard, lines 170-204) *)

(** [s.slice(0, n)] and [s.slice(-n)] on a string; a character of the
    model is one UTF-16 code unit of the program's string. *)
Fixpoint sliceTo (n : nat) (s : string) : string :=
  match n, s with
  | S n', String c rest => String c (sliceTo n' rest)
  | _, _ => EmptyString
  end.

Fixpoint dropStr (n : nat) (s : string) : string :=
  match n, s with
  | S n', String _ rest => dropStr n' rest
  | _, _ => s
  end.

Definition sliceLast (n : nat) (s : string) : string :=
  dropStr (String.length s - n) s.

(** [token.name.length > 10 ? `${token.name.slice(0, 8)}..` : token.name]
    (line 172), for a name that is a string. *)
Definition shortName (name : string) : string :=
  if (10 <? String.length name)%nat then sliceTo 8 name ++ ".." else name.

(** [`${token.mint.slice(0, 4)}..${token.mint.slice(-4)}`] (line 175) *)
Definition mintShort (m : string) : string :=
  sliceTo 4 m ++ ".." ++ sliceLast 4 m.

(** Lines 181-182: which token goes on which line of the card. *)
Definition nonSolToken (c : card) : cardToken :=
  if String.eqb (c_type c) "BUY" then c_outputToken c else c_inputToken c.

Definition solToken (c : card) : cardToken :=
  if String.eqb (c_type c) "BUY" then c_inputToken c else c_outputToken c.

(** Line 201 *)
Definition borderColor (c : card) : string :=
  if String.eqb (c_type c) "BUY" then "green" else "red".

(** One token line of the card (formatTokenInfo, lines 171-179), for a
    name that is a primitive: a string is shortened, and on any other
    primitive [token.name.length] is [undefined], so the name is shown as
    it is.  The amount and the price are kept as numbers. *)
Record tokenLine := mkTokenLine {
  tl_type : string;
  tl_name : JS.value;
  tl_amount : Q;
  tl_price : Q;
  tl_mint : string
}.

Definition formatTokenInfo (token : cardToken) (type : string) : tokenLine :=
  {| tl_type := type;
     tl_name := match ct_name token with
                | JS.Str name => JS.Str (shortName name)
                | other => other
                end;
     tl_amount := ct_amount token;
     tl_price := ct_price token;
     tl_mint := mintShort (ct_mint token) |}.

(** What the card shows (lines 189-203). *)
Record cardText := mkCardText {
  x_type : string;
  x_timestamp : Z;
  x_image : string;
  x_tokenInfo : tokenLine;
  x_solInfo : tokenLine;
  x_status : string;
  x_fee : Q;
  x_signature : string;
  x_border : string
}.

(** The data on which createTransactionCard is traced here: both names
    are primitives and the signature is a string, so [token.name.slice],
    [data.signature.slice] and the template literals get what they
    expect. *)
Definition plainCard (data : card) : bool :=
  JS.primitive (ct_name (c_inputToken data)) &&
  JS.primitive (ct_name (c_outputToken data)) &&
  match c_signature data with
  | JS.Str _ => true
  | _ => false
  end.

Definition cardTextOf (data : card) : cardText :=
  let buy := String.eqb (c_type data) "BUY" in
  {| x_type := c_type data;
     x_timestamp := c_timestamp data;
     x_image := ct_image (nonSolToken data);
     x_tokenInfo := formatTokenInfo (nonSolToken data) (if buy then "IN " else "OUT");
     x_solInfo := formatTokenInfo (solToken data) (if buy then "OUT" else "IN ");
     x_status := c_status data;
     x_fee := c_fee data;
     x_signature := match c_signature data with
                    | JS.Str signature => sliceTo 8 signature ++ "..."
                    | _ => ""
                    end;
     x_border := borderColor data |}.

(** ** The outside world *)

(** What a library call comes back with. *)
Inductive reply (A : Type) :=
| Returns (a : A)
| Raises (e : JS.error).
Arguments Returns {A} a.
Arguments Raises {A} e.

Record World := mkWorld {
  (** [new PublicKey(wallet)] accepts the string *)
  isPublicKey : string -> bool;
  (** [connection.getParsedTransaction(signature, ...)]: [None] is
      [null] *)
  getParsedTransaction : JS.value -> reply (option parsedTx);
  (** [dexParser.parseTrades(tx)] *)
  parseTrades : parsedTx -> reply (list trade);
  (** the answer to a [getAsset] request for a mint *)
  getAsset : string -> http;
  (** [renderTokenImage(await downloadAndCacheImage(url))]: the cached
      download and the terminal rendering, as one lookup *)
  tokenImage : JS.value -> string;
  (** of two getAsset lookups started together (lines 236-239): whether
      the answer for the first mint is handled before the answer for the
      second *)
  firstSettlesFirst : string -> string -> bool;
  (** createTransactionCard on data that is not [plainCard]: an array
      or object as a name (a name such as [{length: 11}] has no [slice],
      line 172; an object with its own [toString] cannot be put into a
      template literal) or a signature that is not a string (line 195).
      Whether the call returns or throws there is left to the world. *)
  exoticCard : card -> reply cardText
}.

Definition lift {A} (r : reply A) : M A :=
  match r with
  | Returns a => ret a
  | Raises e => throw e
  end.

(** [new PublicKey(wallet)] *)
Definition newPublicKey (W : World) (wallet : string) : M unit :=
  if isPublicKey W wallet then ret tt
  else throw (JS.LibraryError "Invalid public key input").

(** createTransactionCard (lines 170-204) *)
Definition createTransactionCard (W : World) (data : card) : M cardText :=
  if plainCard data then ret (cardTextOf data) else lift (exoticCard W data).

(** [`${v}`]: a value of the provider's answer put into a template
    literal (token metadata, the URL of a picture, the count of
    signatures, the signature line of the box).  Whether the conversion
    throws is modelled; the text is not, the value stands for it. *)
Definition toText (v : JS.value) : M JS.value :=
  if JS.convertible v then ret v
  else throw (JS.TypeError "Cannot convert object to primitive value").

(** ** fetchAssetInfo (lines 103-121, 638-663) *)

Definition fetchAssetInfo (W : World) (mintId : string) : M JS.value :=
  try_catch
    (emit (RpcCall "getAsset" mintId None) ;;
     body <- responseJson (getAsset W mintId) ;;
     get body "result")
    (fun e =>
       out ErrorC "Error fetching asset info for " [V (JS.Str mintId); E e] ;;
       ret JS.Null).

(** fetchAssetInfo from its first [await] on: the request is out, the
    answer is read or the failure reported. *)
Definition assetAnswer (W : World) (mintId : string) : M JS.value :=
  try_catch
    (body <- responseJson (getAsset W mintId) ;;
     get body "result")
    (fun e =>
       out ErrorC "Error fetching asset info for " [V (JS.Str mintId); E e] ;;
       ret JS.Null).

(** [await Promise.all([fetchAssetInfo(a), fetchAssetInfo(b)])] (lines
    236-239): each call runs up to its [await fetch(...)], so both
    requests are out before either answer is handled; the answers are
    then handled in the order in which they arrive. *)
Definition lookupBoth (W : World) (a b : string) : M (JS.value * JS.value) :=
  emit (RpcCall "getAsset" a None) ;;
  emit (RpcCall "getAsset" b None) ;;
  if firstSettlesFirst W a b
  then (inputTokenInfo <- assetAnswer W a ;;
        outputTokenInfo <- assetAnswer W b ;;
        ret (inputTokenInfo, outputTokenInfo))
  else (outputTokenInfo <- assetAnswer W b ;;
        inputTokenInfo <- assetAnswer W a ;;
        ret (inputTokenInfo, outputTokenInfo)).

(** ** parseTransaction *)

(** [tx.meta.fee / 1e9 < CONFIG.MIN_SOL_AMOUNT], on exact rationals.  The
    fee is an integer number of lamports; IEEE division is correctly
    rounded and monotone and the literal 0.001 is the double nearest to
    1/1000, so the comparison of doubles agrees with this one. *)
Definition belowMinimum (lamports : Z) : bool :=
  negb (Qle_bool CONFIG.MIN_SOL_AMOUNT
          (inject_Z lamports / inject_Z 1000000000)%Q).

(** [trade.inputToken.mint === CONFIG.SOL_MINT] (lines 241, 722) *)
Definition isBuy (t : trade) : bool :=
  String.eqb (mint (inputToken t)) CONFIG.SOL_MINT.

(** [isBuy ? "BUY" : "SELL"] (line 242) and [isBuy ? "Buy" : "Sell"]
    (line 723) *)
Definition transactionType (v : variant) (t : trade) : string :=
  match v with
  | First => if isBuy t then "BUY" else "SELL"
  | Second => if isBuy t then "Buy" else "Sell"
  end.

(** [x || 0] on a number *)
Definition orZero (q : Q) : Q := if Qeq_bool q 0 then 0%Q else q.

Definition priceOrZero (p : option Q) : Q :=
  match p with
  | Some q => orZero q
  | None => 0%Q
  end.

(** [info?.content?.links?.image] and [info?.content?.metadata?.k] *)
Definition imageOf (info : JS.value) : JS.value :=
  JS.prop (JS.prop (JS.prop info "content") "links") "image".

Definition metadataOf (info : JS.value) (k : string) : JS.value :=
  JS.prop (JS.prop (JS.prop info "content") "metadata") k.

Definition cardTokenOf (W : World) (info : JS.value) (t : token) : cardToken :=
  {| ct_image := tokenImage W (JS.or (imageOf info) (JS.Str CONFIG.DEFAULT_TOKEN_ICON));
     ct_name := JS.or (metadataOf info "name") (JS.Str "Unknown");
     ct_mint := mint t;
     ct_amount := orZero (amount t);
     ct_price := priceOrZero (price t) |}.

Definition feeInSol (m : txMeta) : Q := (inject_Z (fee m) / inject_Z 1000000000)%Q.

(** The URL handed to downloadAndCacheImage (lines 245-246). *)
Definition imageUrlOf (info : JS.value) : JS.value :=
  JS.or (imageOf info) (JS.Str CONFIG.DEFAULT_TOKEN_ICON).

(** Body of the trade loop of the first variant (lines 235-272): the two
    lookups, the two pictures, the [transactionData], the card made from
    it, and the card printed.  downloadAndCacheImage builds its cache key
    with a template literal on the URL before its [try] block (line 131),
    so a URL that cannot be converted to text rejects the [Promise.all]
    of lines 244-247; createTransactionCard can throw as well. *)
Definition renderTrade (W : World) (tx : parsedTx) (m : txMeta)
    (signature : JS.value) (t : trade) : M unit :=
  infos <- lookupBoth W (mint (inputToken t)) (mint (outputToken t)) ;;
  toText (imageUrlOf (fst infos)) ;;
  toText (imageUrlOf (snd infos)) ;;
  let transactionData :=
    {| c_type := transactionType First t;
       c_inputToken := cardTokenOf W (fst infos) (inputToken t);
       c_outputToken := cardTokenOf W (snd infos) (outputToken t);
       c_status := if err m then "failed" else "success";
       c_fee := feeInSol m;
       c_timestamp := blockTime tx * 1000;
       c_signature := signature |} in
  createTransactionCard W transactionData ;;
  emit (PrintCard transactionData).

(** [tx.meta], read for [.fee]: a [null] meta throws. *)
Definition metaOf (tx : parsedTx) : M txMeta :=
  match meta tx with
  | Some m => ret m
  | None => throw (JS.TypeError "Cannot read properties of null (reading 'fee')")
  end.

(** formatNumber of the second variant (lines 613-631): the text is not
    modelled, the type check is. *)
Definition formatNumber (v : JS.value) : M JS.value :=
  match v with
  | JS.Num n => ret (JS.Num n)
  | _ => throw (JS.TypeError "Input must be a valid number")
  end.

(** [if (v) details.push(`label${v}`)]: one line of getTokenDetails. *)
Definition detailLine (label : string) (v : JS.value)
    : M (list (string * JS.value)) :=
  if JS.truthy v then (text <- toText v ;; ret [(label, text)]) else ret [].

(** getTokenDetails (lines 670-682) *)
Definition getTokenDetails (tokenInfo : JS.value) : M (list (string * JS.value)) :=
  if negb (JS.truthy tokenInfo)
  then ret [("No token information available", JS.Undefined)]
  else
    let supply := JS.prop (JS.prop tokenInfo "tokenInfo") "supply" in
    d1 <- detailLine "Name: " (metadataOf tokenInfo "name") ;;
    d2 <- detailLine "Symbol: " (metadataOf tokenInfo "symbol") ;;
    d3 <- detailLine "Mint: " (JS.prop tokenInfo "id") ;;
    d4 <- detailLine "Image: " (imageOf tokenInfo) ;;
    d5 <- (if JS.truthy supply
           then (s <- formatNumber supply ;; ret [("Supply: ", s)])
           else ret []) ;;
    d6 <- detailLine "Decimals: "
            (JS.prop (JS.prop tokenInfo "tokenInfo") "decimals") ;;
    let details := (d1 ++ d2 ++ d3 ++ d4 ++ d5 ++ d6)%list in
    ret (match details with
         | [] => [("No additional token details available", JS.Undefined)]
         | _ => details
         end).

Definition ammOf (t : trade) : JS.value :=
  match amm t with
  | Some a => JS.or (JS.Str a) (JS.Str "Unknown")
  | None => JS.Str "Unknown"
  end.

(** Body of the trade loop of the second variant (lines 717-740): the
    details of one trade, and its type, which overwrites
    [transactionType]. *)
Definition describeTrade (W : World) (t : trade) : M (string * tradeDetails) :=
  inputTokenInfo <- fetchAssetInfo W (mint (inputToken t)) ;;
  outputTokenInfo <- fetchAssetInfo W (mint (outputToken t)) ;;
  let type := transactionType Second t in
  inputTokenDetails <- getTokenDetails inputTokenInfo ;;
  outputTokenDetails <- getTokenDetails outputTokenInfo ;;
  inputSymbol <-
    toText (JS.or (metadataOf inputTokenInfo "symbol") (JS.Str "Unknown")) ;;
  outputSymbol <-
    toText (JS.or (metadataOf outputTokenInfo "symbol") (JS.Str "Unknown")) ;;
  ret (type,
       {| d_amm := ammOf t;
          d_type := type;
          d_input := inputTokenDetails;
          d_inputAmount := amount (inputToken t);
          d_inputSymbol := inputSymbol;
          d_output := outputTokenDetails;
          d_outputAmount := amount (outputToken t);
          d_outputSymbol := outputSymbol;
          d_fee := tradeFee t |}).

(** The loop of lines 716-741, threading [transactionType] and
    [transactionDetails]. *)
Fixpoint describeTrades (W : World) (trades : list trade)
    (type : string) (details : list tradeDetails)
    : M (string * list tradeDetails) :=
  match trades with
  | [] => ret (type, details)
  | t :: rest =>
      d <- describeTrade W t ;;
      describeTrades W rest (fst d) (details ++ [snd d])%list
  end.

Definition borderOf (type : string) : string :=
  if String.eqb type "Buy" || String.eqb type "Receive" then "green" else "red".

(** What follows the fee filter. *)
Definition renderFound (v : variant) (W : World) (tx : parsedTx) (m : txMeta)
    (signature : JS.value) : M unit :=
  match v with
  | First =>
      emit (ParseTrades tx) ;;
      trades <- lift (parseTrades W tx) ;;
      forEach trades (renderTrade W tx m signature) ;;
      out SpinSucceed "Transaction parsed successfully" []
  | Second =>
      out SpinSucceed "Transaction parsed successfully" [] ;;
      emit (ParseTrades tx) ;;
      trades <- lift (parseTrades W tx) ;;
      r <- describeTrades W trades "Unknown" [] ;;
      signatureText <- toText signature ;;
      emit (PrintBox
              {| b_type := fst r;
                 b_signature := signatureText;
                 b_timestamp := blockTime tx * 1000;
                 b_failed := err m;
                 b_fee := feeInSol m;
                 b_details := snd r;
                 b_border := borderOf (fst r) |})
  end.

(** What parseTransaction does with the provider's answer (lines 224-274
    and 698-760). *)
Definition renderAnswer (v : variant) (W : World) (signature : JS.value)
    (tx : option parsedTx) : M unit :=
  match tx with
  | None => out SpinFail "Transaction not found: " [V signature]
  | Some tx =>
      m <- metaOf tx ;;
      if belowMinimum (fee m)
      then out SpinInfo "Skipping low-value transaction: " [V signature]
      else renderFound v W tx m signature
  end.

(** The catch block of parseTransaction (lines 275-278 and 761-764). *)
Definition parseFailed (signature : JS.value) (e : JS.error) : M unit :=
  out SpinFail "Error parsing transaction " [V signature] ;;
  out ErrorC "" [E e].

(** parseTransaction (lines 214-279 and 689-765) *)
Definition parseTransaction (v : variant) (W : World)
    (signature : JS.value) (trackedWallet : string) : M unit :=
  if negb (JS.truthy signature)
  then out ErrorC "Invalid signature received:" [V signature]
  else
    out SpinStart "Parsing transaction..." [] ;;
    try_catch
      (emit (GetParsedTransaction signature) ;;
       tx <- lift (getParsedTransaction W signature) ;;
       renderAnswer v W signature tx)
      (parseFailed signature).

(** ** Signature fetches *)

Fixpoint mapM {A B} (f : A -> M B) (l : list A) : M (list B) :=
  match l with
  | [] => ret []
  | x :: rest => y <- f x ;; ys <- mapM f rest ;; ret (y :: ys)
  end.

(** [v.map(f)]: only an array has a [map] method. *)
Definition arrayMap (v : JS.value) (f : JS.value -> M JS.value) : M (list JS.value) :=
  match v with
  | JS.Arr items => mapM f items
  | _ => throw (JS.TypeError "result.map is not a function")
  end.

(** fetchRecentTransactionSignatures (lines 331-349 and 824-843); [resp]
    is what the provider answers to this request. *)
Definition fetchRecentTransactionSignatures (W : World) (wallet : string)
    (resp : http) : M (list JS.value) :=
  try_catch
    (newPublicKey W wallet ;;
     emit (RpcCall "getSignaturesForAddress" wallet (Some 1)) ;;
     body <- responseJson resp ;;
     result <- get body "result" ;;
     arrayMap result (fun tx => get tx "signature"))
    (fun e =>
       out ErrorC "Error fetching recent transaction signatures:" [E e] ;;
       ret []).

(** What [for (const tx of v)] iterates over. *)
Definition iterate (v : JS.value) : M (list JS.value) :=
  match v with
  | JS.Arr items => ret items
  | JS.Str s => ret (JS.chars s)
  | _ => throw (JS.TypeError "signatures is not iterable")
  end.

(** The loop of lines 378-380 and 872-874: one render after the other,
    each awaited before the next starts. *)
Definition renderEach (v : variant) (W : World) (wallet : string)
    (items : list JS.value) : M unit :=
  forEach items
    (fun tx => s <- get tx "signature" ;; parseTransaction v W s wallet).

(** fetchTransactions (lines 359-385 and 850-879).  The limit is a
    JavaScript number, an integer or [NaN] ([None]); [JSON.stringify]
    writes [NaN] as [null], so the event carries it as it is. *)
Definition fetchTransactions (v : variant) (W : World) (wallet : string)
    (limit : option Z) (resp : http) : M unit :=
  out SpinStart "Fetching transactions..." [] ;;
  try_catch
    (newPublicKey W wallet ;;
     emit (RpcCall "getSignaturesForAddress" wallet limit) ;;
     body <- responseJson resp ;;
     signatures <- get body "result" ;;
     if negb (JS.truthy (JS.prop signatures "length"))
     then out SpinFail "No transactions found" []
     else
       count <- toText (JS.prop signatures "length") ;;
       out SpinSucceed "Fetched transactions" [V count] ;;
       items <- iterate signatures ;;
       renderEach v W wallet items)
    (fun e =>
       out SpinFail "Error fetching transactions:" [] ;;
       out ErrorC "" [E e]).

(** ** The subscription loop *)

(** An inbound frame: text that [JSON.parse] rejects, or the value it
    parses to. *)
Inductive wire :=
| Garbled (text : string)
| Json (v : JS.value).

Definition jsonParse (data : wire) : M JS.value :=
  match data with
  | Garbled _ => throw JS.SyntaxError
  | Json v => ret v
  end.

(** [message.method === "accountNotification"] *)
Definition isNotification (method : JS.value) : bool :=
  match method with
  | JS.Str s => String.eqb s "accountNotification"
  | _ => false
  end.

(** Line 795, second variant only: the account value is logged before
    the signatures are fetched. *)
Definition logUpdate (v : variant) (message : JS.value) : M unit :=
  match v with
  | First => ret tt
  | Second =>
      params <- get message "params" ;;
      result <- get params "result" ;;
      value <- get result "value" ;;
      out LogC "Account updated:" [V value]
  end.

(** Lines 305-310 and 797-802: fetch, then hand the first signature, if
    any, to the callback. *)
Definition dispatchLatest (W : World) (wallet : string)
    (onTransaction : JS.value -> M unit) (resp : http) : M unit :=
  recentSignatures <- fetchRecentTransactionSignatures W wallet resp ;;
  match recentSignatures with
  | latestSignature :: _ =>
      out LogC "New transaction detected: " [V latestSignature] ;;
      onTransaction latestSignature
  | [] => ret tt
  end.

(** The message handler of setupWebSocket (lines 301-315 and 791-807). *)
Definition onMessage (v : variant) (W : World) (wallet : string)
    (onTransaction : JS.value -> M unit) (data : wire) (resp : http) : M unit :=
  try_catch
    (message <- jsonParse data ;;
     method <- get message "method" ;;
     if isNotification method
     then logUpdate v message ;; dispatchLatest W wallet onTransaction resp
     else ret tt)
    (fun e => out ErrorC "WebSocket message processing error:" [E e]).

Inductive readyState := CONNECTING | OPEN | CLOSED.

(** The sockets ever created (the index is the socket), the pending
    [setTimeout] delays and the sockets that have a heartbeat interval
    (none is ever cleared). *)
Record loop := mkLoop {
  sockets : list readyState;
  timeouts : list Z;
  intervals : list nat
}.

Definition emptyLoop : loop := mkLoop [] [] [].

Definition stateOf (s : loop) (id : nat) : option readyState :=
  nth_error (sockets s) id.

Fixpoint setNth {A} (l : list A) (n : nat) (x : A) : list A :=
  match l, n with
  | [], _ => []
  | _ :: rest, O => x :: rest
  | y :: rest, S n' => y :: setNth rest n' x
  end.

Definition setState (s : loop) (id : nat) (st : readyState) : loop :=
  mkLoop (setNth (sockets s) id st) (timeouts s) (intervals s).

(** setupWebSocket (lines 287-322 and 772-817): a new socket; its four
    handlers are the cases of [step]. *)
Definition setupWebSocket (s : loop) : M loop :=
  emit (WsConnect (List.length (sockets s))) ;;
  ret (mkLoop (sockets s ++ [CONNECTING]) (timeouts s) (intervals s)).

(** What the event loop delivers. *)
Inductive input :=
| Opened (id : nat)
| Message (id : nat) (data : wire) (resp : http)
| Errored (id : nat) (e : JS.error)
| Closed (id : nat)
| TimeoutFired
| IntervalFired (k : nat).

Definition live (st : option readyState) : bool :=
  match st with
  | Some CONNECTING | Some OPEN => true
  | _ => false
  end.

(** One callback.  A socket opens once, out of CONNECTING; delivers
    messages while OPEN; closes once. *)
Definition step (v : variant) (W : World) (wallet : string)
    (onTransaction : JS.value -> M unit) (s : loop) (i : input) : M loop :=
  match i with
  | Opened id =>
      match stateOf s id with
      | Some CONNECTING =>
          out LogC "WebSocket connected - watching for new transactions..." [] ;;
          emit (WsSend id "accountSubscribe" wallet) ;;
          emit (SetInterval 30000 id) ;;
          ret (mkLoop (setNth (sockets s) id OPEN) (timeouts s)
                      (intervals s ++ [id]))
      | _ => ret s
      end
  | Message id data resp =>
      match stateOf s id with
      | Some OPEN => onMessage v W wallet onTransaction data resp ;; ret s
      | _ => ret s
      end
  | Errored id e =>
      match stateOf s id with
      | Some _ => out ErrorC "WebSocket error:" [E e] ;; ret s
      | None => ret s
      end
  | Closed id =>
      if live (stateOf s id)
      then
        out LogC "WebSocket disconnected - attempting to reconnect..." [] ;;
        emit (SetTimeout 5000) ;;
        ret (mkLoop (setNth (sockets s) id CLOSED) (timeouts s ++ [5000])
                    (intervals s))
      else ret s
  | TimeoutFired =>
      match timeouts s with
      | _ :: rest => setupWebSocket (mkLoop (sockets s) rest (intervals s))
      | [] => ret s
      end
  | IntervalFired k =>
      match nth_error (intervals s) k with
      | Some id =>
          match stateOf s id with
          | Some OPEN => emit (WsPing id) ;; ret s
          | _ => ret s
          end
      | None => ret s
      end
  end.

Fixpoint run (v : variant) (W : World) (wallet : string)
    (onTransaction : JS.value -> M unit) (s : loop) (inputs : list input)
    : M loop :=
  match inputs with
  | [] => ret s
  | i :: rest =>
      s' <- step v W wallet onTransaction s i ;;
      run v W wallet onTransaction s' rest
  end.

(** The callback trackWallet passes on (lines 395-401 and 886-892). *)
Definition renderHandler (v : variant) (W : World) (wallet : string)
    (signature : JS.value) : M unit :=
  try_catch (parseTransaction v W signature wallet)
    (fun e => out ErrorC "Error processing transaction " [V signature; E e]).

(** trackWallet (lines 394-402 and 885-893) *)
Definition trackWallet (v : variant) (W : World) (wallet : string) : M loop :=
  setupWebSocket emptyLoop.

(** A track session: the subscription is set up, then the callbacks run
    in the order the event loop delivers them. *)
Definition session (v : variant) (W : World) (wallet : string)
    (inputs : list input) : M loop :=
  s <- trackWallet v W wallet ;;
  run v W wallet (renderHandler v W wallet) s inputs.

(** ** Command line *)

Record env := mkEnv {
  HELIUS_API_KEY : JS.value;
  DEBUG : JS.value
}.

(** The command lines that reach the code of the program: no command at
    all ([process.argv.length <= 2]), [fetch <wallet>] with the text given
    to [-l] or [--limit], if any, [track <wallet>], and a command that is
    not registered.  Every other command line ([fetch] or [track] without
    a wallet, [--version], [--help], an unknown option) is answered by
    commander itself, which ends the process before any action of the
    program runs; those are not command lines of this type. *)
Inductive command :=
| CmdNone
| CmdFetch (wallet : string) (limit : option string)
| CmdTrack (wallet : string)
| CmdUnknown (name : string).

(** handleError (lines 448-454 and 999-1014) *)
Definition handleError {A} (e : env) (context : string) (error : JS.error) : M A :=
  out ErrorC context [E error] ;;
  (if JS.truthy (DEBUG e) then out ErrorC "" [E error] else ret tt) ;;
  exit 1.

(** White space that [Number.parseInt] skips, among the code units up to
    255. *)
Definition isWhiteSpace (c : Ascii.ascii) : bool :=
  let n := Ascii.nat_of_ascii c in
  ((9 <=? n) && (n <=? 13) || (n =? 32) || (n =? 160))%nat.

Fixpoint trimStart (s : string) : string :=
  match s with
  | String c rest => if isWhiteSpace c then trimStart rest else s
  | EmptyString => s
  end.

(** The value of a character as a digit: 0-9, then a-z or A-Z for 10 to
    35. *)
Definition digitValue (c : Ascii.ascii) : option Z :=
  let n := Z.of_nat (Ascii.nat_of_ascii c) in
  if (48 <=? n) && (n <=? 57) then Some (n - 48)
  else if (97 <=? n) && (n <=? 122) then Some (n - 87)
  else if (65 <=? n) && (n <=? 90) then Some (n - 55)
  else None.

(** The number written by the longest prefix of [s] made of digits of
    radix [R], after the digits read so far; [None] when no digit has
    been read. *)
Fixpoint readDigits (R : Z) (s : string) (acc : option Z) : option Z :=
  match s with
  | String c rest =>
      match digitValue c with
      | Some d =>
          if d <? R
          then readDigits R rest
                 (Some (match acc with Some a => a * R + d | None => d end))
          else acc
      | None => acc
      end
  | EmptyString => acc
  end.

(** ToInt32 of a number that is an integer or [NaN]. *)
Definition toInt32 (n : option Z) : Z :=
  match n with
  | Some z => (z + 2147483648) mod 4294967296 - 2147483648
  | None => 0
  end.

(** [Number.parseInt(text, radix)] as ECMAScript defines it: leading
    white space and one sign are skipped, a radix of 0 means 10 (or 16
    after [0x]), a radix outside 2..36 gives [NaN], and so does a text
    that does not start with a digit of the radix; what follows the
    digits is ignored.  The value is kept exact (a double is, up to
    2^53). *)
Definition parseInt (text : string) (radix : option Z) : option Z :=
  let trimmed := trimStart text in
  let '(sign, unsigned) :=
    match trimmed with
    | String "-"%char rest => (-1, rest)
    | String "+"%char rest => (1, rest)
    | _ => (1, trimmed)
    end in
  let R := toInt32 radix in
  if negb (R =? 0) && ((R <? 2) || (36 <? R)) then None
  else
    let '(R', digits) :=
      if (R =? 0) || (R =? 16)
      then match unsigned with
           | String "0"%char (String "x"%char rest)
           | String "0"%char (String "X"%char rest) => (16, rest)
           | _ => (if R =? 0 then 10 else R, unsigned)
           end
      else (R, unsigned) in
    option_map (Z.mul sign) (readDigits R' digits None).

(** [options.limit] (lines 417 and 961).  The option is declared as
    [.option("-l, --limit <number>", ..., Number.parseInt, 5)]: commander
    stores the default 5, and when the option is given (once) it calls the
    parser with the text and the value stored so far, so the text is read
    by [Number.parseInt(text, 5)], with 5 as the radix. *)
Definition optionsLimit (given : option string) : option Z :=
  match given with
  | Some text => parseInt text (Some 5)
  | None => Some 5
  end.

(** [Math.min(a, b)] on numbers that are integers or [NaN]. *)
Definition mathMin (a b : option Z) : option Z :=
  match a, b with
  | Some x, Some y => Some (Z.min x y)
  | _, _ => None
  end.

(** [Math.min(options.limit, 100)] (lines 420 and 964) *)
Definition requestLimit (given : option string) : option Z :=
  mathMin (optionsLimit given) (Some 100).

(** The action of the fetch command (lines 418-424 and 962-968). *)
Definition fetchAction (v : variant) (W : World) (e : env) (wallet : string)
    (supplied : option string) (resp : http) : M unit :=
  try_catch (fetchTransactions v W wallet (requestLimit supplied) resp)
    (fun error => handleError e "Fetch command failed" error).

(** The action of the track command (lines 429-435 and 973-979). *)
Definition trackAction (v : variant) (W : World) (e : env) (wallet : string)
    : M loop :=
  try_catch (trackWallet v W wallet)
    (fun error => handleError e "Track command failed" error).

Definition dispatch (v : variant) (W : World) (e : env) (cmd : command)
    (resp : http) : M loop :=
  match cmd with
  | CmdNone => emit Help ;; ret emptyLoop
  | CmdFetch wallet supplied =>
      fetchAction v W e wallet supplied resp ;; ret emptyLoop
  | CmdTrack wallet => trackAction v W e wallet
  | CmdUnknown _ => out ErrorC "Error: Invalid command" [] ;; exit 1
  end.

(** "Validate environment variables" (lines 585-601); the first variant
    has no such step. *)
Definition validateConfig (v : variant) (e : env) : M unit :=
  match v with
  | First => ret tt
  | Second =>
      if negb (JS.truthy (HELIUS_API_KEY e))
      then
        out ErrorC "Error: Missing HELIUS_API_KEY environment variable" [] ;;
        exit 1
      else ret tt
  end.

(** The module body, top to bottom.  The first variant shows its splash
    screen and creates the cache directory before it parses the command
    line (lines 493-503); the second one goes straight to it (lines
    1017-1020). *)
Definition main (v : variant) (W : World) (e : env) (cmd : command)
    (resp : http) : M loop :=
  validateConfig v e ;;
  match v with
  | First => emit ClearScreen ;; emit Splash ;; emit Mkdir ;; dispatch v W e cmd resp
  | Second => dispatch v W e cmd resp
  end.

(** Requests that reach the provider. *)
Definition isProviderCall (ev : event) : bool :=
  match ev with
  | RpcCall _ _ _ | GetParsedTransaction _ | WsConnect _ | WsSend _ _ _ | WsPing _ => true
  | _ => false
  end.

(** ** Observations on traces *)

Definition observe {B} (f : event -> list B) (t : list event) : list B :=
  flat_map f t.

(** The signature a call of parseTransaction was made with: every call
    starts by either rejecting its signature (lines 215-218) or asking
    the provider for the transaction (line 223). *)
Definition renderedSignature (ev : event) : list JS.value :=
  match ev with
  | GetParsedTransaction s => [s]
  | Out ErrorC text [V s] =>
      if String.eqb text "Invalid signature received:" then [s] else []
  | _ => []
  end.

Definition rendered (t : list event) : list JS.value :=
  observe renderedSignature t.

(** The buy/sell label of every trade shown. *)
Definition classification (ev : event) : list string :=
  match ev with
  | PrintCard c => [c_type c]
  | PrintBox b => map d_type (b_details b)
  | _ => []
  end.

Definition classifications (t : list event) : list string :=
  observe classification t.

(** The [limit] of every getSignaturesForAddress request. *)
Definition requestedLimit (ev : event) : list (option Z) :=
  match ev with
  | RpcCall method _ limit =>
      if String.eqb method "getSignaturesForAddress" then [limit] else []
  | _ => []
  end.

Definition requestedLimits (t : list event) : list (option Z) :=
  observe requestedLimit t.


Definition firstOf {A} (l : list A) : list A :=
  match l with
  | x :: _ => [x]
  | [] => []
  end.

(** What a signature fetch hands to its caller. *)
Definition fetched (W : World) (wallet : string) (resp : http) : list JS.value :=
  match result (fetchRecentTransactionSignatures W wallet resp) with
  | Ok l => l
  | _ => []
  end.

(** A frame that the handler does not take for an account notification:
    text that is not JSON, a value whose [method] is not
    "accountNotification" and, in the second variant, a notification
    without [params.result]. *)
Definition malformed (v : variant) (data : wire) : bool :=
  match data with
  | Garbled _ => true
  | Json message =>
      negb (isNotification (JS.prop message "method")) ||
      match v with
      | First => false
      | Second =>
          JS.nullish (JS.prop message "params") ||
          JS.nullish (JS.prop (JS.prop message "params") "result")
      end
  end.

(** The malformed frames on which processing raises an error: text that
    is not JSON, [null], and the notifications without [params.result]. *)
Definition raisesError (v : variant) (data : wire) : bool :=
  match data with
  | Garbled _ => true
  | Json message =>
      JS.nullish message ||
      (isNotification (JS.prop message "method") &&
       match v with
       | First => false
       | Second =>
           JS.nullish (JS.prop message "params") ||
           JS.nullish (JS.prop (JS.prop message "params") "result")
       end)
  end.






Definition isOpen (s : loop) (id : nat) : bool :=
  match stateOf s id with
  | Some OPEN => true
  | _ => false
  end.


(** The delays of the reconnect timers set, and the sockets created. *)
Definition reconnects (t : list event) : list Z :=
  observe (fun ev => match ev with SetTimeout d => [d] | _ => [] end) t.

Definition connects (t : list event) : list nat :=
  observe (fun ev => match ev with WsConnect id => [id] | _ => [] end) t.

(** [n] transport failures in a row: socket [first] opens, closes, the
    reconnect timer fires; then the same with the socket that the timer
    created; and so on. *)
Fixpoint closeCycles (n first : nat) : list input :=
  match n with
  | O => []
  | S n' => [Opened first; Closed first; TimeoutFired] ++ closeCycles n' (S first)
  end.

(** The loop after [k] such failures: [k] closed sockets, a new one
    connecting, no timer pending. *)
Definition cycleState (k : nat) : loop :=
  mkLoop (repeat CLOSED k ++ [CONNECTING]) [] (seq 0 k).

Definition cycleTrace (wallet : string) (k : nat) : list event :=
  [Out LogC "WebSocket connected - watching for new transactions..." [];
   WsSend k "accountSubscribe" wallet;
   SetInterval 30000 k;
   Out LogC "WebSocket disconnected - attempting to reconnect..." [];
   SetTimeout 5000;
   WsConnect (S k)].

Definition notClosed (st : readyState) : bool :=
  match st with
  | CLOSED => false
  | _ => true
  end.

(** The loop still has something to run: a socket that is connecting or
    open, or a reconnect timer. *)
Definition alive (s : loop) : bool :=
  existsb notClosed (sockets s) ||
  match timeouts s with
  | [] => false
  | _ => true
  end.


Definition nonNull (tx : JS.value) : bool := negb (JS.nullish tx).

(** The signatures of the entries of a provider answer, in its order. *)
Definition signaturesOf (items : list JS.value) : list JS.value :=
  map (fun tx => JS.prop tx "signature") items.

Definition buyLabel (v : variant) : string :=
  match v with First => "BUY" | Second => "Buy" end.

Definition sellLabel (v : variant) : string :=
  match v with First => "SELL" | Second => "Sell" end.

(** A trade and the label it is shown with. *)
Definition labelled (v : variant) (t : trade) (label : string) : Prop :=
  (mint (inputToken t) = CONFIG.SOL_MINT /\ label = buyLabel v)
  \/ (mint (inputToken t) <> CONFIG.SOL_MINT /\ label = sellLabel v).

(** ** A small world to run the program in *)

Module Demo.

Definition wallet : string := "suqh5sHtr8HyJ7q8scBimULPkPpA557prMG47xCHQfK".

Definition solToken : token := mkToken CONFIG.SOL_MINT (3 # 2)%Q (Some (150 # 1)%Q).
Definition bonkToken : token :=
  mkToken "DezXAZ8z7PnrnRJjz3wXBoRgixCa6xjnB7YaB1pPB263" (1000 # 1)%Q None.

Definition buy : trade := mkTrade solToken bonkToken (Some "Raydium") None.
Definition sell : trade := mkTrade bonkToken solToken None None.

Definition swapTx : parsedTx := mkTx (Some (mkMeta 2000000 false)) 1700000000 "swap".
Definition cheapTx : parsedTx := mkTx (Some (mkMeta 5000 false)) 1700000001 "transfer".

Definition world : World :=
  {| isPublicKey := fun w => String.eqb w wallet;
     getParsedTransaction := fun s =>
       match s with
       | JS.Str "sigA" => Returns (Some swapTx)
       | JS.Str "sigB" => Returns (Some cheapTx)
       | JS.Str "sigC" => Raises JS.NetworkError
       | _ => Returns None
       end;
     parseTrades := fun tx =>
       if String.eqb (raw tx) "swap" then Returns [buy; sell] else Returns [];
     getAsset := fun m =>
       if String.eqb m CONFIG.SOL_MINT
       then Body (JS.Obj [("result",
              JS.Obj [("id", JS.Str m);
                      ("content", JS.Obj [("metadata",
                         JS.Obj [("name", JS.Str "Wrapped SOL");
                                 ("symbol", JS.Str "SOL")])])])])
       else NetFail;
     tokenImage := fun _ => "[img]";
     firstSettlesFirst := fun _ b => String.eqb b CONFIG.SOL_MINT;
     exoticCard := fun _ => Raises (JS.TypeError "token.name.slice is not a function") |}.

Definition signatureEntry (s : string) : JS.value :=
  JS.Obj [("signature", JS.Str s); ("slot", JS.Num 1)].

Definition answer (sigs : list string) : http :=
  Body (JS.Obj [("jsonrpc", JS.Str "2.0");
                ("result", JS.Arr (map signatureEntry sigs));
                ("id", JS.Str "helius-test")]).

Definition notification : wire :=
  Json (JS.Obj [("jsonrpc", JS.Str "2.0");
                ("method", JS.Str "accountNotification");
                ("params", JS.Obj [("result",
                   JS.Obj [("context", JS.Obj [("slot", JS.Num 7)]);
                           ("value", JS.Obj [("lamports", JS.Num 42)])]);
                   ("subscription", JS.Num 1)])]).

(** A socket that has been opened and subscribed. *)
Definition subscribed : loop := mkLoop [OPEN] [] [0%nat].

Definition noKey : env := mkEnv JS.Undefined JS.Undefined.
Definition withKey : env := mkEnv (JS.Str "0000-demo-key") JS.Undefined.

End Demo.

(** ** Shapes of traces *)

(** The events that follow the request for the transaction inside
    parseTransaction: what it prints, except the line for a rejected
    signature and the line of the message handler's catch block. *)
Definition inner (ev : event) : bool :=
  match ev with
  | Out ErrorC _ [V _] => false
  | Out ErrorC text _ =>
      negb (String.eqb text "WebSocket message processing error:")
  | Out _ _ _ => true
  | RpcCall method _ _ => String.eqb method "getAsset"
  | ParseTrades _ | PrintCard _ | PrintBox _ => true
  | _ => false
  end.

(** Only [inner] events, and no [process.exit]. *)
Definition safe {A} (m : M A) : Prop :=
  forallb inner (trace m) = true /\ forall c, result m <> Exit c.

(** parseTransaction after its request for the transaction: the try
    block without its first effect, which cannot throw, under the same
    catch block. *)
Definition lookupAndRender (v : variant) (W : World) (signature : JS.value) : M unit :=
  try_catch
    (tx <- lift (getParsedTransaction W signature) ;;
     renderAnswer v W signature tx)
    (parseFailed signature).

(** Nothing that an observer sees, and no [process.exit]. *)
Definition hushed {A B} (f : event -> list B) (m : M A) : Prop :=
  observe f (trace m) = [] /\ forall c, result m <> Exit c.

(** ** The image cache (downloadAndCacheImage, lines 130-143) *)

(** The cache as a list of keys and buffers, newest first; entries are
    taken not to expire. *)
Definition imageCache := list (string * string).

Fixpoint cacheGet (key : string) (cache : imageCache) : option string :=
  match cache with
  | [] => None
  | (k, buffer) :: rest => if String.eqb key k then Some buffer else cacheGet key rest
  end.

Definition cacheSet (key buffer : string) (cache : imageCache) : imageCache :=
  (key, buffer) :: cache.

Definition cacheKey (url : string) : string := "img_" ++ url.

Inductive imageEvent :=
| HttpGet (url : string)
| DownloadError (url : string).

(** [net url] is the body that a download of [url] gives, [None] when
    the request or the read fails.  The result is what was done, what is
    returned ([None] is [null]) and the cache afterwards. *)
Definition downloadAndCacheImage (net : string -> option string)
    (cache : imageCache) (url : string)
    : list imageEvent * option string * imageCache :=
  match cacheGet (cacheKey url) cache with
  | Some cached => ([], Some cached, cache)
  | None =>
      match net url with
      | Some buffer =>
          ([HttpGet url], Some buffer, cacheSet (cacheKey url) buffer cache)
      | None => ([HttpGet url; DownloadError url], None, cache)
      end
  end.

(** ** More observations *)

Definition pings (t : list event) : list nat :=
  observe (fun ev => match ev with WsPing id => [id] | _ => [] end) t.

Definition subscriptions (t : list event) : list nat :=
  observe (fun ev => match ev with WsSend id _ _ => [id] | _ => [] end) t.


Definition cards (t : list event) : list card :=
  observe (fun ev => match ev with PrintCard c => [c] | _ => [] end) t.


(** The events of the socket and its timers. *)
Definition loopEvent (ev : event) : bool :=
  match ev with
  | WsConnect _ | WsSend _ _ _ | WsPing _ | SetInterval _ _ | SetTimeout _ => true
  | _ => false
  end.

Definition loopOnly (ev : event) : list event :=
  if loopEvent ev then [ev] else [].

Definition isClosed (i : input) : bool :=
  match i with
  | Closed _ => true
  | _ => false
  end.

(** What the loop has done so far: the sockets it subscribed and how
    many it created. *)
Record progress := mkProgress {
  subscribed : list nat;
  created : nat
}.

(** Subscriptions are distinct; a subscribed socket is not connecting;
    an open socket is subscribed; every socket was created. *)
Definition consistent (s : loop) (p : progress) : Prop :=
  NoDup (subscribed p)
  /\ (forall id, In id (subscribed p) ->
                 exists st, stateOf s id = Some st /\ st <> CONNECTING)
  /\ (forall id, stateOf s id = Some OPEN -> In id (subscribed p))
  /\ List.length (sockets s) = created p.

(** What fetchAssetInfo hands to its caller. *)
Definition assetInfoOf (W : World) (mintId : string) : JS.value :=
  match result (fetchAssetInfo W mintId) with
  | Ok info => info
  | _ => JS.Null
  end.

(** The [transactionData] that the first variant builds for a trade
    (lines 249-269). *)
Definition cardOf (W : World) (tx : parsedTx) (m : txMeta)
    (signature : JS.value) (t : trade) : card :=
  {| c_type := transactionType First t;
     c_inputToken :=
       cardTokenOf W (assetInfoOf W (mint (inputToken t))) (inputToken t);
     c_outputToken :=
       cardTokenOf W (assetInfoOf W (mint (outputToken t))) (outputToken t);
     c_status := if err m then "failed" else "success";
     c_fee := feeInSol m;
     c_timestamp := blockTime tx * 1000;
     c_signature := signature |}.

(** Whether createTransactionCard returns on this data. *)
Definition cardReturns (W : World) (data : card) : bool :=
  plainCard data ||
  match exoticCard W data with
  | Returns _ => true
  | Raises _ => false
  end.

(** Whether the first variant gets as far as printing the card of a
    trade: the cache keys of the two pictures and the text of the card
    can be made. *)
Definition cardPrinted (W : World) (tx : parsedTx) (m : txMeta)
    (signature : JS.value) (t : trade) : bool :=
  JS.convertible (imageUrlOf (assetInfoOf W (mint (inputToken t)))) &&
  JS.convertible (imageUrlOf (assetInfoOf W (mint (outputToken t)))) &&
  cardReturns W (cardOf W tx m signature t).

(** The trades up to the first one whose card is not printed. *)
Fixpoint printedTrades (W : World) (tx : parsedTx) (m : txMeta)
    (signature : JS.value) (trades : list trade) : list trade :=
  match trades with
  | [] => []
  | t :: rest =>
      if cardPrinted W tx m signature t
      then t :: printedTrades W tx m signature rest
      else []
  end.

(** A value that getTokenDetails can show: it is skipped when falsy and
    put into a template literal otherwise. *)
Definition printable (v : JS.value) : bool :=
  negb (JS.truthy v) || JS.convertible v.

Definition isNumber (v : JS.value) : bool :=
  match v with
  | JS.Num _ => true
  | _ => false
  end.

(** Token information that getTokenDetails can turn into lines: it is
    missing, or its name, symbol, id, image and decimals are printable and
    its supply is falsy or a number. *)
Definition detailsPrintable (info : JS.value) : bool :=
  negb (JS.truthy info) ||
  (printable (metadataOf info "name") &&
   printable (metadataOf info "symbol") &&
   printable (JS.prop info "id") &&
   printable (imageOf info) &&
   (negb (JS.truthy (JS.prop (JS.prop info "tokenInfo") "supply")) ||
    isNumber (JS.prop (JS.prop info "tokenInfo") "supply")) &&
   printable (JS.prop (JS.prop info "tokenInfo") "decimals")).

(** A trade whose block the second variant can write: the details of
    both tokens and the two symbols of the amount lines. *)
Definition describable (W : World) (t : trade) : bool :=
  let inputTokenInfo := assetInfoOf W (mint (inputToken t)) in
  let outputTokenInfo := assetInfoOf W (mint (outputToken t)) in
  detailsPrintable inputTokenInfo &&
  detailsPrintable outputTokenInfo &&
  JS.convertible (JS.or (metadataOf inputTokenInfo "symbol") (JS.Str "Unknown")) &&
  JS.convertible (JS.or (metadataOf outputTokenInfo "symbol") (JS.Str "Unknown")).

(** Whether the second variant gets as far as printing the box. *)
Definition boxPrinted (W : World) (signature : JS.value) (trades : list trade)
    : bool :=
  forallb (describable W) trades && JS.convertible signature.

(** Whether every trade found is shown with its label. *)
Definition allShown (v : variant) (W : World) (tx : parsedTx) (m : txMeta)
    (signature : JS.value) (trades : list trade) : bool :=
  match v with
  | First => forallb (cardPrinted W tx m signature) trades
  | Second => boxPrinted W signature trades
  end.

(** The numeral with the decimal digits [ds], and its value when it is
    read in radix [R]. *)
Definition digitChar (d : Z) : ascii := ascii_of_nat (48 + Z.to_nat d).

Fixpoint numeral (ds : list Z) : string :=
  match ds with
  | [] => EmptyString
  | d :: rest => String (digitChar d) (numeral rest)
  end.

Definition valueInRadix (R : Z) (ds : list Z) : Z :=
  fold_left (fun acc d => acc * R + d) ds 0.

(** The trades that a render of the transaction shows: in the first
    variant those before the first card that cannot be made, in the
    second all of them if the box is printed and none otherwise. *)
Definition shownTrades (v : variant) (W : World) (tx : parsedTx) (m : txMeta)
    (signature : JS.value) (trades : list trade) : list trade :=
  match v with
  | First => printedTrades W tx m signature trades
  | Second => if boxPrinted W signature trades then trades else []
  end.

(** * Properties *)

(** ** The monad *)

Lemma bind_eq {A B} (m : M A) (k : A -> M B) :
  bind m k =
  match result m with
  | Ok a => ((trace m ++ trace (k a))%list, result (k a))
  | Throw e => (trace m, Throw e)
  | Exit c => (trace m, Exit c)
  end.
Proof.
  destruct m as [t [a | e | c]]; simpl; try reflexivity.
  destruct (k a); reflexivity.
Qed.

Lemma try_catch_eq {A} (m : M A) (h : JS.error -> M A) :
  try_catch m h =
  match result m with
  | Throw e => ((trace m ++ trace (h e))%list, result (h e))
  | _ => m
  end.
Proof.
  destruct m as [t [a | e | c]]; simpl; try reflexivity.
  destruct (h e); reflexivity.
Qed.

Lemma trace_bind {A B} (m : M A) (k : A -> M B) :
  trace (bind m k) =
  (trace m ++ match result m with Ok a => trace (k a) | _ => [] end)%list.
Proof.
  rewrite bind_eq; destruct (result m); simpl; now rewrite ?app_nil_r.
Qed.

Lemma result_bind {A B} (m : M A) (k : A -> M B) :
  result (bind m k) =
  match result m with
  | Ok a => result (k a)
  | Throw e => Throw e
  | Exit c => Exit c
  end.
Proof. rewrite bind_eq; destruct (result m); reflexivity. Qed.

Lemma trace_try_catch {A} (m : M A) (h : JS.error -> M A) :
  trace (try_catch m h) =
  (trace m ++ match result m with Throw e => trace (h e) | _ => [] end)%list.
Proof.
  destruct m as [t [a | e | c]]; simpl; rewrite ?app_nil_r; try reflexivity.
  destruct (h e); reflexivity.
Qed.

Lemma result_try_catch {A} (m : M A) (h : JS.error -> M A) :
  result (try_catch m h) =
  match result m with
  | Throw e => result (h e)
  | r => r
  end.
Proof.
  destruct m as [t [a | e | c]]; simpl; try reflexivity.
  destruct (h e); reflexivity.
Qed.

Lemma observe_app {B} (f : event -> list B) (t1 t2 : list event) :
  observe f (t1 ++ t2) = (observe f t1 ++ observe f t2)%list.
Proof. apply flat_map_app. Qed.

Lemma trace_pair {A} (t : list event) (r : outcome A) : trace (t, r) = t.
Proof. reflexivity. Qed.

Lemma surjective_M {A} (m : M A) : m = (trace m, result m).
Proof. destruct m; reflexivity. Qed.

(** ** The fee filter *)

Lemma belowMinimum_lamports (lamports : Z) :
  belowMinimum lamports = (lamports <? 1000000).
Proof.
  unfold belowMinimum, CONFIG.MIN_SOL_AMOUNT.
  destruct (Z.ltb_spec lamports 1000000) as [Hlt | Hge].
  - apply negb_true_iff.
    destruct (Qle_bool (1 # 1000) (inject_Z lamports / inject_Z 1000000000)) eqn:Hq;
      [ | reflexivity ].
    apply Qle_bool_iff in Hq.
    unfold Qle, Qdiv, Qmult, Qinv, inject_Z in Hq; simpl in Hq. lia.
  - apply negb_false_iff, Qle_bool_iff.
    unfold Qle, Qdiv, Qmult, Qinv, inject_Z; simpl. lia.
Qed.




(** ** What a render can emit and how it ends *)

Lemma safe_ret {A} (a : A) : safe (ret a).
Proof. split; [ reflexivity | discriminate ]. Qed.

Lemma safe_throw {A} (e : JS.error) : safe (@throw A e).
Proof. split; [ reflexivity | discriminate ]. Qed.

Lemma safe_lift {A} (r : reply A) : safe (lift r).
Proof. destruct r; [ apply safe_ret | apply safe_throw ]. Qed.

Lemma safe_emit (ev : event) : inner ev = true -> safe (emit ev).
Proof. intros H; split; [ simpl; now rewrite H | discriminate ]. Qed.

Lemma safe_bind {A B} (m : M A) (k : A -> M B) :
  safe m -> (forall a, safe (k a)) -> safe (bind m k).
Proof.
  intros [Ht Hr] Hk; split.
  - rewrite trace_bind, forallb_app, Ht; simpl.
    destruct (result m); [ apply Hk | reflexivity | reflexivity ].
  - intros c; rewrite result_bind.
    destruct (result m) as [ a | e | c' ];
      [ apply Hk | discriminate | exfalso; exact (Hr c' eq_refl) ].
Qed.

Lemma safe_try_catch {A} (m : M A) (h : JS.error -> M A) :
  safe m -> (forall e, safe (h e)) -> safe (try_catch m h).
Proof.
  intros [Ht Hr] Hh; split.
  - rewrite trace_try_catch, forallb_app, Ht; simpl.
    destruct (result m); [ reflexivity | apply Hh | reflexivity ].
  - intros c; rewrite result_try_catch.
    destruct (result m) as [ a | e | c' ];
      [ discriminate | apply Hh | exfalso; exact (Hr c' eq_refl) ].
Qed.

Lemma safe_forEach {A} (l : list A) (body : A -> M unit) :
  (forall x, safe (body x)) -> safe (forEach l body).
Proof.
  intros Hbody; induction l as [ | x rest IH ]; simpl.
  - apply safe_ret.
  - apply safe_bind; [ apply Hbody | intros _; exact IH ].
Qed.

Lemma safe_get (v : JS.value) (k : string) : safe (get v k).
Proof. unfold get; destruct (JS.nullish v); [ apply safe_throw | apply safe_ret ]. Qed.

Lemma safe_responseJson (r : http) : safe (responseJson r).
Proof. destruct r; simpl; [ apply safe_throw | apply safe_throw | apply safe_ret ]. Qed.

Create HintDb safe.
#[local] Hint Resolve safe_ret safe_throw safe_lift safe_get safe_responseJson : safe.

Ltac safe_step :=
  first
    [ apply safe_bind; [ | intros ? ]
    | apply safe_try_catch; [ | intros ? ]
    | apply safe_forEach; intros ?
    | apply safe_emit; reflexivity
    | solve [ auto with safe ] ].

Lemma safe_fetchAssetInfo (W : World) (mintId : string) :
  safe (fetchAssetInfo W mintId).
Proof. unfold fetchAssetInfo, out; repeat safe_step. Qed.

Lemma fetchAssetInfo_returns (W : World) (mintId : string) :
  exists v, result (fetchAssetInfo W mintId) = Ok v.
Proof.
  unfold fetchAssetInfo.
  destruct (getAsset W mintId) as [ | | b ]; simpl; eauto.
  unfold get; destruct (JS.nullish b); simpl; eauto.
Qed.

Lemma toText_eq (v : JS.value) :
  toText v =
  ([], if JS.convertible v then Ok v
       else Throw (JS.TypeError "Cannot convert object to primitive value")).
Proof. unfold toText; destruct (JS.convertible v); reflexivity. Qed.

Lemma safe_toText (v : JS.value) : safe (toText v).
Proof.
  unfold toText; destruct (JS.convertible v); [ apply safe_ret | apply safe_throw ].
Qed.

Lemma safe_detailLine (label : string) (v : JS.value) : safe (detailLine label v).
Proof.
  unfold detailLine; destruct (JS.truthy v); [ | apply safe_ret ].
  apply safe_bind; [ apply safe_toText | intros ?; apply safe_ret ].
Qed.

Lemma safe_formatNumber (v : JS.value) : safe (formatNumber v).
Proof. destruct v; simpl; auto with safe. Qed.

Lemma safe_getTokenDetails (info : JS.value) : safe (getTokenDetails info).
Proof.
  unfold getTokenDetails.
  destruct (negb (JS.truthy info)); [ apply safe_ret | ].
  do 4 (apply safe_bind; [ apply safe_detailLine | intros ? ]).
  apply safe_bind.
  { destruct (JS.truthy _); [ | apply safe_ret ].
    apply safe_bind; [ apply safe_formatNumber | intros ?; apply safe_ret ]. }
  intros ?; apply safe_bind; [ apply safe_detailLine | intros ?; apply safe_ret ].
Qed.

Lemma safe_assetAnswer (W : World) (mintId : string) :
  safe (assetAnswer W mintId).
Proof. unfold assetAnswer, out; repeat safe_step. Qed.

Lemma safe_lookupBoth (W : World) (a b : string) : safe (lookupBoth W a b).
Proof.
  unfold lookupBoth.
  do 2 (apply safe_bind; [ apply safe_emit; reflexivity | intros _ ]).
  destruct (firstSettlesFirst W a b);
    do 2 (apply safe_bind; [ apply safe_assetAnswer | intros ? ]);
    apply safe_ret.
Qed.

Lemma safe_createTransactionCard (W : World) (data : card) :
  safe (createTransactionCard W data).
Proof.
  unfold createTransactionCard.
  destruct (plainCard data); [ apply safe_ret | apply safe_lift ].
Qed.

Lemma safe_renderTrade (W : World) (tx : parsedTx) (m : txMeta)
    (signature : JS.value) (t : trade) :
  safe (renderTrade W tx m signature t).
Proof.
  unfold renderTrade.
  apply safe_bind; [ apply safe_lookupBoth | intros ? ].
  do 2 (apply safe_bind; [ apply safe_toText | intros ? ]).
  apply safe_bind; [ apply safe_createTransactionCard | intros ? ].
  apply safe_emit; reflexivity.
Qed.

Lemma safe_describeTrades (W : World) (trades : list trade) :
  forall type details, safe (describeTrades W trades type details).
Proof.
  induction trades as [ | t rest IH ]; intros type details; simpl.
  - apply safe_ret.
  - apply safe_bind; [ | intros ?; apply IH ].
    unfold describeTrade.
    apply safe_bind; [ apply safe_fetchAssetInfo | intros ? ].
    apply safe_bind; [ apply safe_fetchAssetInfo | intros ? ].
    apply safe_bind; [ apply safe_getTokenDetails | intros ? ].
    apply safe_bind; [ apply safe_getTokenDetails | intros ? ].
    apply safe_bind; [ apply safe_toText | intros ? ].
    apply safe_bind; [ apply safe_toText | intros ? ].
    apply safe_ret.
Qed.

Lemma safe_renderFound (v : variant) (W : World) (tx : parsedTx) (m : txMeta)
    (signature : JS.value) :
  safe (renderFound v W tx m signature).
Proof.
  destruct v; unfold renderFound, out.
  - apply safe_bind; [ apply safe_emit; reflexivity | intros _ ].
    apply safe_bind; [ apply safe_lift | intros trades ].
    apply safe_bind; [ | intros _; apply safe_emit; reflexivity ].
    apply safe_forEach; intros t; apply safe_renderTrade.
  - apply safe_bind; [ apply safe_emit; reflexivity | intros _ ].
    apply safe_bind; [ apply safe_emit; reflexivity | intros _ ].
    apply safe_bind; [ apply safe_lift | intros trades ].
    apply safe_bind; [ apply safe_describeTrades | intros r ].
    apply safe_bind; [ apply safe_toText | intros ? ].
    apply safe_emit; reflexivity.
Qed.

Lemma safe_lookupAndRender (v : variant) (W : World) (signature : JS.value) :
  safe (lookupAndRender v W signature).
Proof.
  unfold lookupAndRender, renderAnswer, parseFailed, out.
  apply safe_try_catch.
  - apply safe_bind; [ apply safe_lift | intros [ tx | ] ].
    + apply safe_bind.
      * unfold metaOf; destruct (meta tx); auto with safe.
      * intros m; destruct (belowMinimum (fee m));
          [ apply safe_emit; reflexivity | apply safe_renderFound ].
    + apply safe_emit; reflexivity.
  - intros e.
    apply safe_bind; [ apply safe_emit; reflexivity | intros _ ].
    apply safe_emit; reflexivity.
Qed.

Lemma lookupAndRender_returns (v : variant) (W : World) (signature : JS.value) :
  result (lookupAndRender v W signature) = Ok tt.
Proof.
  destruct (safe_lookupAndRender v W signature) as [_ Hexit].
  revert Hexit; unfold lookupAndRender.
  rewrite result_try_catch.
  match goal with |- context [ result ?body ] => destruct (result body) as [ [] | e | c ] end.
  - reflexivity.
  - reflexivity.
  - intros H; exfalso; exact (H c eq_refl).
Qed.

Lemma parseTransaction_valid (v : variant) (W : World) (signature : JS.value)
    (wallet : string) :
  JS.truthy signature = true ->
  parseTransaction v W signature wallet =
  (Out SpinStart "Parsing transaction..." [] :: GetParsedTransaction signature
     :: trace (lookupAndRender v W signature),
   Ok tt).
Proof.
  intros Hsig.
  pose proof (lookupAndRender_returns v W signature) as Hres.
  unfold parseTransaction; rewrite Hsig; simpl negb; cbv iota.
  revert Hres; unfold lookupAndRender.
  set (body := bind (lift (getParsedTransaction W signature)) _).
  intros Hres.
  unfold parseFailed, out, emit in *.
  destruct body as [t [ [] | e | c ] ]; simpl in *.
  - reflexivity.
  - reflexivity.
  - discriminate.
Qed.

Lemma parseTransaction_invalid (v : variant) (W : World) (signature : JS.value)
    (wallet : string) :
  JS.truthy signature = false ->
  parseTransaction v W signature wallet =
  ([Out ErrorC "Invalid signature received:" [V signature]], Ok tt).
Proof. intros Hsig; unfold parseTransaction; rewrite Hsig; reflexivity. Qed.

Lemma parseTransaction_returns (v : variant) (W : World) (signature : JS.value)
    (wallet : string) :
  result (parseTransaction v W signature wallet) = Ok tt.
Proof.
  destruct (JS.truthy signature) eqn:Hsig.
  - now rewrite parseTransaction_valid.
  - now rewrite parseTransaction_invalid.
Qed.

Lemma inner_rendered (t : list event) :
  forallb inner t = true -> rendered t = [].
Proof.
  induction t as [ | ev rest IH ]; [ reflexivity | ].
  simpl; intros H; apply andb_prop in H; destruct H as [Hev Hrest].
  unfold rendered in *; simpl; rewrite (IH Hrest), app_nil_r.
  destruct ev as [ c text args | | | | | | | | | | | | | | ]; try discriminate; try reflexivity.
  destruct c; try reflexivity.
  destruct args as [ | [ s | e ] [ | a rest' ] ]; try reflexivity; discriminate.
Qed.

Lemma inner_requestedLimits (t : list event) :
  forallb inner t = true -> requestedLimits t = [].
Proof.
  induction t as [ | ev rest IH ]; [ reflexivity | ].
  simpl; intros H; apply andb_prop in H; destruct H as [Hev Hrest].
  unfold requestedLimits in *; simpl; rewrite (IH Hrest), app_nil_r.
  destruct ev; try discriminate; try reflexivity.
  simpl in Hev; apply String.eqb_eq in Hev; subst; reflexivity.
Qed.

Lemma observe_cons {B} (f : event -> list B) (ev : event) (t : list event) :
  observe f (ev :: t) = (f ev ++ observe f t)%list.
Proof. reflexivity. Qed.

Lemma parseTransaction_rendered (v : variant) (W : World) (signature : JS.value)
    (wallet : string) :
  rendered (trace (parseTransaction v W signature wallet)) = [signature].
Proof.
  destruct (JS.truthy signature) eqn:Hsig.
  - rewrite parseTransaction_valid by assumption.
    pose proof (inner_rendered _ (proj1 (safe_lookupAndRender v W signature))) as H.
    unfold rendered, trace in *; cbn [fst].
    now rewrite !observe_cons, H.
  - rewrite parseTransaction_invalid by assumption. reflexivity.
Qed.

Lemma parseTransaction_requestedLimits (v : variant) (W : World)
    (signature : JS.value) (wallet : string) :
  requestedLimits (trace (parseTransaction v W signature wallet)) = [].
Proof.
  destruct (JS.truthy signature) eqn:Hsig.
  - rewrite parseTransaction_valid by assumption.
    pose proof (inner_requestedLimits _ (proj1 (safe_lookupAndRender v W signature))) as H.
    unfold requestedLimits, trace in *; cbn [fst].
    now rewrite !observe_cons, H.
  - rewrite parseTransaction_invalid by assumption. reflexivity.
Qed.

(** Nothing of what an observer looks for. *)

Lemma hushed_ret {A B} (f : event -> list B) (a : A) : hushed f (ret a).
Proof. split; [ reflexivity | discriminate ]. Qed.

Lemma hushed_throw {A B} (f : event -> list B) (e : JS.error) : hushed f (@throw A e).
Proof. split; [ reflexivity | discriminate ]. Qed.

Lemma hushed_emit {B} (f : event -> list B) (ev : event) :
  f ev = [] -> hushed f (emit ev).
Proof.
  intros H; split; [ | discriminate ].
  unfold emit, trace; cbn [fst]; now rewrite observe_cons, H.
Qed.

Lemma hushed_bind {A B C} (f : event -> list C) (m : M A) (k : A -> M B) :
  hushed f m -> (forall a, hushed f (k a)) -> hushed f (bind m k).
Proof.
  intros [Ht Hr] Hk; split.
  - rewrite trace_bind, observe_app, Ht; simpl.
    destruct (result m); [ apply Hk | reflexivity | reflexivity ].
  - intros c; rewrite result_bind.
    destruct (result m) as [ a | e | c' ];
      [ apply Hk | discriminate | exfalso; exact (Hr c' eq_refl) ].
Qed.

Lemma hushed_try_catch {A C} (f : event -> list C) (m : M A) (h : JS.error -> M A) :
  hushed f m -> (forall e, hushed f (h e)) -> hushed f (try_catch m h).
Proof.
  intros [Ht Hr] Hh; split.
  - rewrite trace_try_catch, observe_app, Ht; simpl.
    destruct (result m); [ reflexivity | apply Hh | reflexivity ].
  - intros c; rewrite result_try_catch.
    destruct (result m) as [ a | e | c' ];
      [ discriminate | apply Hh | exfalso; exact (Hr c' eq_refl) ].
Qed.

Lemma hushed_forEach {A C} (f : event -> list C) (l : list A) (body : A -> M unit) :
  (forall x, hushed f (body x)) -> hushed f (forEach l body).
Proof.
  intros Hbody; induction l as [ | x rest IH ]; simpl.
  - apply hushed_ret.
  - apply hushed_bind; [ apply Hbody | intros _; exact IH ].
Qed.

Lemma hushed_get {B} (f : event -> list B) (v : JS.value) (k : string) :
  hushed f (get v k).
Proof.
  unfold get; destruct (JS.nullish v); [ apply hushed_throw | apply hushed_ret ].
Qed.

Lemma hushed_responseJson {B} (f : event -> list B) (r : http) :
  hushed f (responseJson r).
Proof.
  destruct r; simpl; [ apply hushed_throw | apply hushed_throw | apply hushed_ret ].
Qed.

(** ** Signature fetches *)

Lemma get_eq (v : JS.value) (k : string) :
  get v k =
  if JS.nullish v
  then ([], Throw (JS.TypeError "Cannot read properties of null or undefined"))
  else ([], Ok (JS.prop v k)).
Proof. unfold get; destruct (JS.nullish v); reflexivity. Qed.

Lemma mapM_get (k : string) (items : list JS.value) :
  mapM (fun tx => get tx k) items =
  ([], if forallb nonNull items
       then Ok (map (fun tx => JS.prop tx k) items)
       else Throw (JS.TypeError "Cannot read properties of null or undefined")).
Proof.
  induction items as [ | tx rest IH ]; [ reflexivity | ].
  simpl; rewrite IH, get_eq; unfold nonNull.
  destruct (JS.nullish tx); simpl; [ reflexivity | ].
  destruct (forallb _ rest); reflexivity.
Qed.

(** The signature fetch never throws; its trace has no render in it. *)
Lemma fetchRecent_returns (W : World) (wallet : string) (resp : http) :
  result (fetchRecentTransactionSignatures W wallet resp)
  = Ok (fetched W wallet resp)
  /\ rendered (trace (fetchRecentTransactionSignatures W wallet resp)) = [].
Proof.
  unfold fetched, fetchRecentTransactionSignatures, newPublicKey.
  destruct (isPublicKey W wallet); [ | split; reflexivity ].
  destruct resp as [ | | body ]; try (split; reflexivity).
  cbn; rewrite get_eq.
  destruct (JS.nullish body); [ split; reflexivity | ].
  cbn; unfold arrayMap.
  destruct (JS.prop body "result"); try (split; reflexivity).
  rewrite mapM_get.
  destruct (forallb _ items); split; reflexivity.
Qed.

Lemma renderHandler_eq (v : variant) (W : World) (wallet : string)
    (signature : JS.value) :
  renderHandler v W wallet signature = parseTransaction v W signature wallet.
Proof.
  unfold renderHandler.
  rewrite try_catch_eq, parseTransaction_returns; reflexivity.
Qed.

(** ** The message handler *)

Lemma onMessage_malformed (v : variant) (W : World) (wallet : string)
    (h : JS.value -> M unit) (data : wire) (resp : http) :
  malformed v data = true ->
  exists e,
    onMessage v W wallet h data resp =
    (if raisesError v data
     then [Out ErrorC "WebSocket message processing error:" [E e]]
     else [],
     Ok tt).
Proof.
  intros Hbad.
  destruct data as [ text | message ].
  - exists JS.SyntaxError; reflexivity.
  - exists (JS.TypeError "Cannot read properties of null or undefined").
    unfold onMessage, malformed, raisesError in *.
    cbn; rewrite get_eq.
    destruct (JS.nullish message) eqn:Hnull; [ reflexivity | ].
    cbn.
    destruct (isNotification (JS.prop message "method")); [ | reflexivity ].
    destruct v; [ discriminate | ].
    cbn in Hbad |- *. unfold logUpdate.
    rewrite get_eq, Hnull; cbn.
    rewrite get_eq.
    destruct (JS.nullish (JS.prop message "params")); [ reflexivity | ].
    cbn in Hbad |- *. rewrite get_eq, Hbad. reflexivity.
Qed.

Lemma logUpdate_wellFormed (v : variant) (message : JS.value) :
  malformed v (Json message) = false ->
  exists t, logUpdate v message = (t, Ok tt) /\ rendered t = [].
Proof.
  unfold malformed; intros H.
  apply orb_false_iff in H; destruct H as [Hm H].
  apply negb_false_iff in Hm.
  assert (Hnull : JS.nullish message = false)
    by (destruct message; try reflexivity; discriminate).
  destruct v; [ exists []; split; reflexivity | ].
  apply orb_false_iff in H; destruct H as [Hp Hr].
  unfold logUpdate.
  rewrite get_eq, Hnull; cbn.
  rewrite get_eq, Hp; cbn.
  rewrite get_eq, Hr; cbn.
  eexists; split; reflexivity.
Qed.

Lemma dispatchLatest_render (v : variant) (W : World) (wallet : string)
    (resp : http) :
  result (dispatchLatest W wallet (renderHandler v W wallet) resp) = Ok tt
  /\ rendered (trace (dispatchLatest W wallet (renderHandler v W wallet) resp))
     = firstOf (fetched W wallet resp).
Proof.
  unfold dispatchLatest.
  destruct (fetchRecent_returns W wallet resp) as [Hres Hren].
  rewrite result_bind, trace_bind, Hres.
  unfold rendered in *; rewrite observe_app, Hren.
  destruct (fetched W wallet resp) as [ | latest rest ].
  - split; reflexivity.
  - rewrite result_bind, trace_bind; cbn [out emit result trace fst snd].
    rewrite renderHandler_eq, parseTransaction_returns.
    split; [ reflexivity | ].
    rewrite observe_app.
    change (observe renderedSignature (trace (parseTransaction v W latest wallet)))
      with (rendered (trace (parseTransaction v W latest wallet))).
    rewrite parseTransaction_rendered; reflexivity.
Qed.

Lemma bind_ret_l {A B} (a : A) (k : A -> M B) : bind ([], Ok a) k = k a.
Proof. unfold bind; destruct (k a); reflexivity. Qed.

Lemma notification_not_nullish (message : JS.value) :
  isNotification (JS.prop message "method") = true -> JS.nullish message = false.
Proof. destruct message; try reflexivity; discriminate. Qed.

Lemma onMessage_wellFormed (v : variant) (W : World) (wallet : string)
    (h : JS.value -> M unit) (message : JS.value) (resp : http) :
  isNotification (JS.prop message "method") = true ->
  onMessage v W wallet h (Json message) resp =
  try_catch (logUpdate v message ;; dispatchLatest W wallet h resp)
    (fun e => out ErrorC "WebSocket message processing error:" [E e]).
Proof.
  intros Hm.
  unfold onMessage; cbn [jsonParse]; unfold ret.
  rewrite bind_ret_l, get_eq, (notification_not_nullish _ Hm), bind_ret_l, Hm.
  reflexivity.
Qed.

Lemma onMessage_render (v : variant) (W : World) (wallet : string)
    (data : wire) (resp : http) :
  result (onMessage v W wallet (renderHandler v W wallet) data resp) = Ok tt
  /\ rendered (trace (onMessage v W wallet (renderHandler v W wallet) data resp))
     = if malformed v data then [] else firstOf (fetched W wallet resp).
Proof.
  destruct (malformed v data) eqn:Hbad.
  - destruct (onMessage_malformed v W wallet (renderHandler v W wallet) data resp Hbad)
      as [e ->].
    destruct (raisesError v data); split; reflexivity.
  - destruct data as [ text | message ]; [ discriminate | ].
    destruct (logUpdate_wellFormed v message Hbad) as (t & Hlog & Hquiet).
    destruct (dispatchLatest_render v W wallet resp) as [Hres Hren].
    unfold malformed in Hbad.
    apply orb_false_iff in Hbad; destruct Hbad as [Hm _].
    apply negb_false_iff in Hm.
    rewrite (onMessage_wellFormed v W wallet _ message resp Hm).
    rewrite result_try_catch, trace_try_catch, result_bind, trace_bind, Hlog.
    cbn [result trace fst snd]; rewrite Hres.
    split; [ reflexivity | ].
    rewrite app_nil_r.
    unfold rendered in *; rewrite observe_app, Hquiet, Hren; reflexivity.
Qed.

(** ** Dispatch *)

Lemma step_message (v : variant) (W : World) (wallet : string)
    (h : JS.value -> M unit) (s : loop) (id : nat) (data : wire) (resp : http) :
  step v W wallet h s (Message id data resp) =
  if isOpen s id
  then (onMessage v W wallet h data resp ;; ret s)
  else ret s.
Proof.
  unfold step, isOpen.
  destruct (stateOf s id) as [ [ | | ] | ]; reflexivity.
Qed.

Lemma step_message_render (v : variant) (W : World) (wallet : string)
    (s : loop) (id : nat) (data : wire) (resp : http) :
  result (step v W wallet (renderHandler v W wallet) s (Message id data resp)) = Ok s
  /\ rendered (trace (step v W wallet (renderHandler v W wallet) s
                        (Message id data resp)))
     = if isOpen s id && negb (malformed v data)
       then firstOf (fetched W wallet resp)
       else [].
Proof.
  rewrite step_message.
  destruct (isOpen s id); [ | split; reflexivity ].
  destruct (onMessage_render v W wallet data resp) as [Hres Hren].
  rewrite result_bind, trace_bind, Hres; cbn [ret result trace fst snd].
  rewrite app_nil_r, Hren.
  destruct (malformed v data); split; reflexivity.
Qed.


Lemma run_app (v : variant) (W : World) (wallet : string)
    (h : JS.value -> M unit) (i1 i2 : list input) :
  forall s,
    run v W wallet h s (i1 ++ i2) =
    (s' <- run v W wallet h s i1 ;; run v W wallet h s' i2).
Proof.
  induction i1 as [ | i rest IH ]; intros s; cbn [app run].
  - unfold ret; now rewrite bind_ret_l.
  - rewrite !bind_eq.
    destruct (result (step v W wallet h s i)) as [ s1 | e | c ];
      cbn [result trace fst snd]; try reflexivity.
    rewrite IH, !bind_eq.
    destruct (result (run v W wallet h s1 rest)) as [ s2 | e | c ];
      cbn [result trace fst snd]; now rewrite ?app_assoc.
Qed.





(** ** What the handler passes on *)

Lemma inner_observe {B} (f : event -> list B) (t : list event) :
  (forall ev, inner ev = true -> f ev = []) ->
  forallb inner t = true -> observe f t = [].
Proof.
  intros Hf; induction t as [ | ev rest IH ]; [ reflexivity | ].
  cbn [forallb]; intros H; apply andb_prop in H; destruct H as [Hev Hrest].
  rewrite observe_cons, (Hf ev Hev), (IH Hrest); reflexivity.
Qed.

Lemma hushed_parse {B} (f : event -> list B) (v : variant) (W : World)
    (signature : JS.value) (wallet : string) :
  (forall ev, loopEvent ev = false -> f ev = []) ->
  hushed f (parseTransaction v W signature wallet).
Proof.
  intros Hf; split.
  2:{ intros c; rewrite parseTransaction_returns; discriminate. }
  destruct (JS.truthy signature) eqn:Hsig.
  - rewrite parseTransaction_valid by assumption.
    rewrite trace_pair, !observe_cons, !Hf by reflexivity.
    apply inner_observe; [ | apply safe_lookupAndRender ].
    intros ev Hev; apply Hf.
    destruct ev; try discriminate; reflexivity.
  - rewrite parseTransaction_invalid by assumption.
    rewrite trace_pair, observe_cons, Hf by reflexivity; reflexivity.
Qed.

Lemma hushed_fetchRecent {B} (f : event -> list B) (W : World) (wallet : string)
    (resp : http) :
  (forall ev, loopEvent ev = false -> f ev = []) ->
  hushed f (fetchRecentTransactionSignatures W wallet resp).
Proof.
  intros Hf; unfold fetchRecentTransactionSignatures, out.
  apply hushed_try_catch.
  - apply hushed_bind.
    { unfold newPublicKey; destruct (isPublicKey W wallet);
        [ apply hushed_ret | apply hushed_throw ]. }
    intros _; apply hushed_bind; [ apply hushed_emit, Hf; reflexivity | intros _ ].
    apply hushed_bind; [ apply hushed_responseJson | intros body ].
    apply hushed_bind; [ apply hushed_get | intros r ].
    unfold arrayMap; destruct r; try apply hushed_throw.
    rewrite mapM_get; split; [ reflexivity | ].
    intros c; cbn [result snd]; destruct (forallb nonNull items); discriminate.
  - intros e.
    apply hushed_bind; [ apply hushed_emit, Hf; reflexivity | intros _ ].
    apply hushed_ret.
Qed.

(** The handler passes on nothing but what the callback does. *)
Lemma hushed_onMessage {B} (f : event -> list B) (v : variant) (W : World)
    (wallet : string) (h : JS.value -> M unit) (data : wire) (resp : http) :
  (forall ev, loopEvent ev = false -> f ev = []) ->
  (forall s, hushed f (h s)) ->
  hushed f (onMessage v W wallet h data resp).
Proof.
  intros Hf Hh; unfold onMessage, out.
  apply hushed_try_catch; [ | intros e; apply hushed_emit, Hf; reflexivity ].
  apply hushed_bind.
  { destruct data; [ apply hushed_throw | apply hushed_ret ]. }
  intros message.
  apply hushed_bind; [ apply hushed_get | intros method ].
  destruct (isNotification method); [ | apply hushed_ret ].
  apply hushed_bind.
  { unfold logUpdate, out; destruct v; [ apply hushed_ret | ].
    apply hushed_bind; [ apply hushed_get | intros ? ].
    apply hushed_bind; [ apply hushed_get | intros ? ].
    apply hushed_bind; [ apply hushed_get | intros ? ].
    apply hushed_emit, Hf; reflexivity. }
  intros _; unfold dispatchLatest, out.
  apply hushed_bind; [ apply hushed_fetchRecent, Hf | intros sigs ].
  destruct sigs as [ | latest rest ]; [ apply hushed_ret | ].
  apply hushed_bind; [ apply hushed_emit, Hf; reflexivity | intros _; apply Hh ].
Qed.

(** ** Malformed frames *)











(** ** Reconnection *)

Lemma step_closed (v : variant) (W : World) (wallet : string)
    (h : JS.value -> M unit) (s : loop) (id : nat) :
  live (stateOf s id) = true ->
  step v W wallet h s (Closed id) =
  ([Out LogC "WebSocket disconnected - attempting to reconnect..." [];
    SetTimeout 5000],
   Ok (mkLoop (setNth (sockets s) id CLOSED) (timeouts s ++ [5000]) (intervals s))).
Proof. intros Hlive; unfold step; rewrite Hlive; reflexivity. Qed.

Lemma step_timeout (v : variant) (W : World) (wallet : string)
    (h : JS.value -> M unit) (s : loop) (d : Z) (rest : list Z) :
  timeouts s = d :: rest ->
  step v W wallet h s TimeoutFired =
  ([WsConnect (List.length (sockets s))],
   Ok (mkLoop (sockets s ++ [CONNECTING]) rest (intervals s))).
Proof. intros Ht; unfold step; rewrite Ht; reflexivity. Qed.

Lemma nth_error_last {A} (l : list A) (x : A) :
  nth_error (l ++ [x]) (List.length l) = Some x.
Proof. induction l; simpl; auto. Qed.

Lemma setNth_last {A} (l : list A) (x y : A) :
  setNth (l ++ [x]) (List.length l) y = (l ++ [y])%list.
Proof. induction l; simpl; [ reflexivity | now f_equal ]. Qed.

Lemma one_cycle (v : variant) (W : World) (wallet : string)
    (h : JS.value -> M unit) (k : nat) :
  run v W wallet h (cycleState k) [Opened k; Closed k; TimeoutFired] =
  (cycleTrace wallet k, Ok (cycleState (S k))).
Proof.
  assert (Hlen : List.length (repeat CLOSED k) = k) by apply repeat_length.
  assert (Hk : stateOf (cycleState k) k = Some CONNECTING).
  { unfold stateOf, cycleState; cbn [sockets].
    rewrite <- Hlen at 2. apply nth_error_last. }
  cbn [run].
  unfold step at 1; rewrite Hk.
  cbn [out emit bind ret app].
  assert (Hset : setNth (sockets (cycleState k)) k OPEN = (repeat CLOSED k ++ [OPEN])%list).
  { unfold cycleState; cbn [sockets]. rewrite <- Hlen at 2. apply setNth_last. }
  rewrite Hset; cbn [timeouts intervals cycleState].
  rewrite step_closed.
  2:{ unfold stateOf; cbn [sockets]. rewrite <- Hlen at 2.
      rewrite nth_error_last; reflexivity. }
  cbn [bind sockets timeouts intervals app].
  rewrite <- Hlen at 2; rewrite setNth_last.
  erewrite step_timeout by reflexivity.
  cbn [bind ret sockets timeouts intervals app fst snd].
  unfold cycleTrace, cycleState.
  rewrite length_app, Hlen, Nat.add_1_r.
  rewrite <- repeat_cons, seq_S; reflexivity.
Qed.

Lemma cycles_run (v : variant) (W : World) (wallet : string)
    (h : JS.value -> M unit) (n : nat) :
  forall k,
    run v W wallet h (cycleState k) (closeCycles n k) =
    (flat_map (cycleTrace wallet) (seq k n), Ok (cycleState (k + n))).
Proof.
  induction n as [ | n IH ]; intros k.
  - simpl; now rewrite Nat.add_0_r.
  - cbn [closeCycles].
    rewrite run_app, one_cycle, bind_eq; cbn [result trace fst snd].
    rewrite IH; cbn [result trace fst snd].
    now rewrite Nat.add_succ_r.
Qed.

Lemma cycles_reconnects (wallet : string) (n : nat) :
  forall k, reconnects (flat_map (cycleTrace wallet) (seq k n)) = repeat 5000 n.
Proof.
  induction n as [ | n IH ]; intros k; [ reflexivity | ].
  cbn [seq flat_map]; unfold reconnects in *.
  rewrite observe_app, IH; reflexivity.
Qed.

Lemma cycles_connects (wallet : string) (n : nat) :
  forall k, connects (flat_map (cycleTrace wallet) (seq k n)) = seq (S k) n.
Proof.
  induction n as [ | n IH ]; intros k; [ reflexivity | ].
  cbn [seq flat_map]; unfold connects in *.
  rewrite observe_app, IH; reflexivity.
Qed.

Lemma existsb_setNth (l : list readyState) (id : nat) (st x : readyState) :
  nth_error l id = Some x -> notClosed st = true ->
  existsb notClosed (setNth l id st) = true.
Proof.
  revert id; induction l as [ | y rest IH ]; intros [ | id ] Hn Hst;
    simpl in *; try discriminate.
  - now rewrite Hst.
  - rewrite (IH id Hn Hst); apply orb_true_r.
Qed.

Lemma step_alive (v : variant) (W : World) (wallet : string) (s : loop) (i : input) :
  alive s = true ->
  exists s', result (step v W wallet (renderHandler v W wallet) s i) = Ok s'
             /\ alive s' = true.
Proof.
  intros Halive.
  destruct i as [ id | id data resp | id e | id | | k ].
  - unfold step.
    destruct (stateOf s id) as [ [ | | ] | ] eqn:Hst; try (exists s; split; [ reflexivity | assumption ]).
    eexists; split; [ reflexivity | ].
    unfold alive; cbn [sockets].
    unfold stateOf in Hst; rewrite (existsb_setNth _ _ OPEN _ Hst eq_refl); reflexivity.
  - exists s; split; [ | assumption ].
    apply (proj1 (step_message_render v W wallet s id data resp)).
  - unfold step.
    destruct (stateOf s id); exists s; split; (reflexivity || assumption).
  - destruct (live (stateOf s id)) eqn:Hlive.
    + rewrite step_closed by assumption.
      eexists; split; [ reflexivity | ].
      unfold alive; cbn [sockets timeouts].
      destruct (timeouts s); simpl; apply orb_true_r.
    + unfold step; rewrite Hlive.
      exists s; split; [ reflexivity | assumption ].
  - destruct (timeouts s) as [ | d rest ] eqn:Ht.
    + unfold step; rewrite Ht.
      exists s; split; [ reflexivity | assumption ].
    + rewrite (step_timeout v W wallet _ s d rest Ht).
      eexists; split; [ reflexivity | ].
      unfold alive; cbn [sockets].
      rewrite existsb_app; simpl. now rewrite orb_true_r.
  - unfold step.
    destruct (nth_error (intervals s) k) as [ id | ];
      [ destruct (stateOf s id) as [ [ | | ] | ] | ];
      exists s; split; (reflexivity || assumption).
Qed.

Lemma run_alive (v : variant) (W : World) (wallet : string) (inputs : list input) :
  forall s,
    alive s = true ->
    exists s', result (run v W wallet (renderHandler v W wallet) s inputs) = Ok s'
               /\ alive s' = true.
Proof.
  induction inputs as [ | i rest IH ]; intros s Halive.
  - exists s; split; [ reflexivity | assumption ].
  - destruct (step_alive v W wallet s i Halive) as (s1 & Hres & Halive1).
    destruct (IH s1 Halive1) as (s2 & Hres2 & Halive2).
    exists s2; split; [ | assumption ].
    cbn [run]; now rewrite result_bind, Hres.
Qed.

(** C4.  A close of a connecting or open socket sets exactly one timer,
    of 5000 ms, and the timer's firing creates exactly one new socket.
    After any number [n] of transport failures in a row the loop has set
    [n] timers, all of 5000 ms, has made [n] reconnects, and is connecting
    again.  Whatever the event loop delivers, the session neither throws
    nor exits, and it is left with a live socket or a pending reconnect. *)
Theorem reconnects_after_every_close :
  forall (v : variant) (W : World) (wallet : string),
    (forall h s id,
        live (stateOf s id) = true ->
        step v W wallet h s (Closed id) =
        ([Out LogC "WebSocket disconnected - attempting to reconnect..." [];
          SetTimeout 5000],
         Ok (mkLoop (setNth (sockets s) id CLOSED) (timeouts s ++ [5000])
                    (intervals s))))
    /\ (forall h s d rest,
           timeouts s = d :: rest ->
           step v W wallet h s TimeoutFired =
           ([WsConnect (List.length (sockets s))],
            Ok (mkLoop (sockets s ++ [CONNECTING]) rest (intervals s))))
    /\ (forall n,
           result (session v W wallet (closeCycles n 0)) = Ok (cycleState n)
           /\ reconnects (trace (session v W wallet (closeCycles n 0)))
              = repeat 5000 n
           /\ connects (trace (session v W wallet (closeCycles n 0)))
              = seq 0 (S n))
    /\ (forall inputs,
           exists s, result (session v W wallet inputs) = Ok s /\ alive s = true).
Proof.
  intros v W wallet.
  split; [ intros h s id; apply step_closed | ].
  split; [ intros h s d rest; apply step_timeout | ].
  split.
  - intros n.
    unfold session, trackWallet, setupWebSocket.
    cbn [emptyLoop sockets timeouts intervals List.length app emit ret bind].
    change (mkLoop [CONNECTING] [] []) with (cycleState 0).
    rewrite cycles_run; cbn [result trace fst snd].
    split; [ reflexivity | ].
    split.
    + unfold reconnects; rewrite observe_cons; cbn [app].
      apply cycles_reconnects.
    + unfold connects; rewrite observe_cons; cbn [app].
      change (observe _ ?t) with (connects t).
      now rewrite cycles_connects.
  - intros inputs.
    unfold session, trackWallet, setupWebSocket.
    cbn [emptyLoop sockets timeouts intervals List.length app emit ret bind].
    destruct (run_alive v W wallet inputs (mkLoop [CONNECTING] [] []) eq_refl)
      as (s & Hres & Halive).
    exists s; split; [ | assumption ].
    rewrite (surjective_M (run _ _ _ _ _ _)) ; cbn [result snd]. exact Hres.
Qed.

Lemma reconnects_after_every_close_witness :
  step Second Demo.world Demo.wallet (renderHandler Second Demo.world Demo.wallet)
    Demo.subscribed (Closed 0) =
  ([Out LogC "WebSocket disconnected - attempting to reconnect..." [];
    SetTimeout 5000],
   Ok (mkLoop [CLOSED] [5000] [0%nat])).
Proof.
  apply (proj1 (reconnects_after_every_close Second Demo.world Demo.wallet)
           (renderHandler Second Demo.world Demo.wallet) Demo.subscribed 0%nat).
  reflexivity.
Defined.

(** ** The signature fetcher *)

Lemma prop_array_not_nullish (body : JS.value) (k : string) (items : list JS.value) :
  JS.prop body k = JS.Arr items -> JS.nullish body = false.
Proof. destruct body; simpl; intros H; try reflexivity; discriminate. Qed.

Lemma fetchRecent_success (W : World) (wallet : string) (body : JS.value)
    (items : list JS.value) :
  isPublicKey W wallet = true ->
  JS.prop body "result" = JS.Arr items ->
  forallb nonNull items = true ->
  fetchRecentTransactionSignatures W wallet (Body body) =
  ([RpcCall "getSignaturesForAddress" wallet (Some 1)], Ok (signaturesOf items)).
Proof.
  intros Hkey Hres Hall.
  unfold fetchRecentTransactionSignatures, newPublicKey.
  rewrite Hkey; cbn.
  rewrite get_eq, (prop_array_not_nullish _ _ _ Hres), Hres; cbn.
  rewrite mapM_get, Hall; reflexivity.
Qed.

Lemma fetchRecent_failure (W : World) (wallet : string) (resp : http) :
  isPublicKey W wallet = false
  \/ resp = NetFail
  \/ resp = BadBody
  \/ (exists body, resp = Body body
                   /\ forall items, JS.prop body "result" <> JS.Arr items)
  \/ (exists body items, resp = Body body
                         /\ JS.prop body "result" = JS.Arr items
                         /\ forallb nonNull items = false) ->
  exists e pre,
    fetchRecentTransactionSignatures W wallet resp =
    ((pre ++ [Out ErrorC "Error fetching recent transaction signatures:" [E e]])%list,
     Ok []).
Proof.
  unfold fetchRecentTransactionSignatures, newPublicKey.
  intros H.
  destruct (isPublicKey W wallet) eqn:Hkey.
  2:{ exists (JS.LibraryError "Invalid public key input"), []; reflexivity. }
  destruct H as [H | [-> | [-> | [(body & -> & Hno) | (body & items & -> & Hres & Hall)]]]].
  - discriminate.
  - exists JS.NetworkError, [RpcCall "getSignaturesForAddress" wallet (Some 1)];
      reflexivity.
  - exists JS.SyntaxError, [RpcCall "getSignaturesForAddress" wallet (Some 1)];
      reflexivity.
  - exists (match JS.prop body "result" with
            | JS.Arr _ => JS.SyntaxError
            | _ => if JS.nullish body
                   then JS.TypeError "Cannot read properties of null or undefined"
                   else JS.TypeError "result.map is not a function"
            end),
           [RpcCall "getSignaturesForAddress" wallet (Some 1)].
    cbn; rewrite get_eq.
    destruct (JS.nullish body) eqn:Hnull.
    + destruct body; try discriminate; reflexivity.
    + cbn; unfold arrayMap.
      destruct (JS.prop body "result") eqn:Hres; try reflexivity.
      exfalso; exact (Hno _ eq_refl).
  - exists (JS.TypeError "Cannot read properties of null or undefined"),
           [RpcCall "getSignaturesForAddress" wallet (Some 1)].
    cbn; rewrite get_eq, (prop_array_not_nullish _ _ _ Hres), Hres; cbn.
    rewrite mapM_get, Hall; reflexivity.
Qed.

(** C6, as the code has it.  The signature fetcher never throws to its
    caller.  When the wallet is rejected, the request fails, the body is
    not JSON, or the body has no array of non-null entries under [result]
    (a provider error response has none), it logs a diagnostic as its last
    effect and returns the empty sequence.  When the provider answers
    with an array, it returns the signatures of all its entries in the
    provider's order (newest first is the provider's order); the request
    asks for one entry, and the sequence returned is as long as the
    answer, whatever that length is: nothing is cut off. *)
Theorem signature_fetch_swallows_failures :
  forall (W : World) (wallet : string) (resp : http),
    (exists l, result (fetchRecentTransactionSignatures W wallet resp) = Ok l)
    /\ (isPublicKey W wallet = false
        \/ resp = NetFail
        \/ resp = BadBody
        \/ (exists body, resp = Body body
                         /\ forall items, JS.prop body "result" <> JS.Arr items)
        \/ (exists body items, resp = Body body
                               /\ JS.prop body "result" = JS.Arr items
                               /\ forallb nonNull items = false) ->
        exists e pre,
          fetchRecentTransactionSignatures W wallet resp =
          ((pre ++ [Out ErrorC "Error fetching recent transaction signatures:" [E e]])%list,
           Ok []))
    /\ (forall body items,
           isPublicKey W wallet = true ->
           resp = Body body ->
           JS.prop body "result" = JS.Arr items ->
           forallb nonNull items = true ->
           fetchRecentTransactionSignatures W wallet resp =
           ([RpcCall "getSignaturesForAddress" wallet (Some 1)],
            Ok (signaturesOf items))
           /\ requestedLimits (trace (fetchRecentTransactionSignatures W wallet resp))
              = [Some 1]
           /\ List.length (fetched W wallet resp) = List.length items).
Proof.
  intros W wallet resp.
  split; [ exists (fetched W wallet resp); apply fetchRecent_returns | ].
  split; [ apply fetchRecent_failure | ].
  intros body items Hkey -> Hres Hall.
  pose proof (fetchRecent_success W wallet body items Hkey Hres Hall) as Heq.
  split; [ exact Heq | ].
  split; [ now rewrite Heq | ].
  unfold fetched; rewrite Heq; cbn [result snd].
  unfold signaturesOf; now rewrite length_map.
Qed.

Lemma signature_fetch_swallows_failures_witness :
  (exists e pre,
      fetchRecentTransactionSignatures Demo.world Demo.wallet
        (Body (JS.Obj [("error", JS.Obj [("code", JS.Num (-32602))])])) =
      ((pre ++ [Out ErrorC "Error fetching recent transaction signatures:" [E e]])%list,
       Ok []))
  /\ fetchRecentTransactionSignatures Demo.world Demo.wallet (Demo.answer ["sigA"]) =
     ([RpcCall "getSignaturesForAddress" Demo.wallet (Some 1)], Ok [JS.Str "sigA"]).
Proof.
  split.
  - apply (proj1 (proj2 (signature_fetch_swallows_failures Demo.world Demo.wallet
                           (Body (JS.Obj [("error", JS.Obj [("code", JS.Num (-32602))])]))))).
    right; right; right; left.
    eexists; split; [ reflexivity | ].
    intros items; discriminate.
  - apply (proj2 (proj2 (signature_fetch_swallows_failures Demo.world Demo.wallet
                           (Demo.answer ["sigA"])))
             (JS.Obj [("jsonrpc", JS.Str "2.0");
                      ("result", JS.Arr (map Demo.signatureEntry ["sigA"]));
                      ("id", JS.Str "helius-test")])
             (map Demo.signatureEntry ["sigA"])); reflexivity.
Defined.

(** C6, as stated, fails on the length: the request asks for one
    signature, and when the provider answers with three entries all
    three signatures are returned. *)
Lemma signature_fetch_returns_all_entries :
  requestedLimits (trace (fetchRecentTransactionSignatures Demo.world Demo.wallet
                            (Demo.answer ["sigA"; "sigB"; "sigC"])))
  = [Some 1]
  /\ ~ (List.length (fetched Demo.world Demo.wallet
                       (Demo.answer ["sigA"; "sigB"; "sigC"])) <= 1)%nat.
Proof.
  split; [ reflexivity | ].
  vm_compute; intros H; apply Nat.leb_le in H; discriminate.
Qed.

(** ** The fetch command *)

Lemma hushed_toText {B} (f : event -> list B) (v : JS.value) : hushed f (toText v).
Proof.
  rewrite toText_eq; split; [ reflexivity | ].
  intros c; cbn [result snd]; destruct (JS.convertible v); discriminate.
Qed.

Lemma hushed_parseTransaction (v : variant) (W : World) (signature : JS.value)
    (wallet : string) :
  hushed requestedLimit (parseTransaction v W signature wallet).
Proof.
  split.
  - apply parseTransaction_requestedLimits.
  - intros c; rewrite parseTransaction_returns; discriminate.
Qed.

Lemma hushed_renderEach (v : variant) (W : World) (wallet : string)
    (items : list JS.value) :
  hushed requestedLimit (renderEach v W wallet items).
Proof.
  apply hushed_forEach; intros tx.
  apply hushed_bind; [ apply hushed_get | intros s ].
  apply hushed_parseTransaction.
Qed.

(** What fetchTransactions does once the request is out. *)
Lemma hushed_afterRequest (v : variant) (W : World) (wallet : string) (resp : http) :
  hushed requestedLimit
    (body <- responseJson resp ;;
     signatures <- get body "result" ;;
     if negb (JS.truthy (JS.prop signatures "length"))
     then out SpinFail "No transactions found" []
     else
       count <- toText (JS.prop signatures "length") ;;
       out SpinSucceed "Fetched transactions" [V count] ;;
       items <- iterate signatures ;;
       renderEach v W wallet items).
Proof.
  apply hushed_bind; [ apply hushed_responseJson | intros body ].
  apply hushed_bind; [ apply hushed_get | intros signatures ].
  destruct (negb _); [ apply hushed_emit; reflexivity | ].
  apply hushed_bind; [ apply hushed_toText | intros count ].
  apply hushed_bind; [ apply hushed_emit; reflexivity | intros _ ].
  apply hushed_bind; [ | intros items; apply hushed_renderEach ].
  unfold iterate; destruct signatures;
    (apply hushed_throw || apply hushed_ret).
Qed.

Lemma fetchTransactions_limit (v : variant) (W : World) (wallet : string)
    (limit : option Z) (resp : http) :
  isPublicKey W wallet = true ->
  requestedLimits (trace (fetchTransactions v W wallet limit resp)) = [limit]
  /\ result (fetchTransactions v W wallet limit resp) = Ok tt.
Proof.
  intros Hkey.
  destruct (hushed_afterRequest v W wallet resp) as [Hobs Hexit].
  unfold fetchTransactions, newPublicKey; rewrite Hkey.
  set (after := bind (responseJson resp) _) in *.
  unfold ret at 1; rewrite bind_ret_l.
  unfold out, emit.
  destruct after as [t [ [] | e | c ] ]; cbn in *.
  - split; [ | reflexivity ].
    now rewrite Hobs.
  - split; [ | reflexivity ].
    now rewrite flat_map_app, Hobs.
  - exfalso; exact (Hexit c eq_refl).
Qed.

Lemma fetchTransactions_returns (v : variant) (W : World) (wallet : string)
    (limit : option Z) (resp : http) :
  result (fetchTransactions v W wallet limit resp) = Ok tt.
Proof.
  destruct (isPublicKey W wallet) eqn:Hkey.
  - apply fetchTransactions_limit; assumption.
  - unfold fetchTransactions, newPublicKey; rewrite Hkey; reflexivity.
Qed.

Lemma fetchAction_eq (v : variant) (W : World) (e : env) (wallet : string)
    (supplied : option string) (resp : http) :
  fetchAction v W e wallet supplied resp =
  fetchTransactions v W wallet (requestLimit supplied) resp.
Proof.
  unfold fetchAction.
  rewrite try_catch_eq, fetchTransactions_returns; reflexivity.
Qed.







(** ** Buy or sell *)

Lemma transactionType_labelled (v : variant) (t : trade) :
  labelled v t (transactionType v t).
Proof.
  unfold labelled, transactionType, isBuy.
  destruct (String.eqb_spec (mint (inputToken t)) CONFIG.SOL_MINT) as [Heq | Hne];
    destruct v; auto.
Qed.

Lemma hushed_fetchAssetInfo {B} (f : event -> list B) (W : World) (mintId : string) :
  (forall method subject, f (RpcCall method subject None) = []) ->
  (forall text args, f (Out ErrorC text args) = []) ->
  hushed f (fetchAssetInfo W mintId).
Proof.
  intros Hrpc Hout; unfold fetchAssetInfo, out.
  apply hushed_try_catch.
  - apply hushed_bind; [ apply hushed_emit, Hrpc | intros _ ].
    apply hushed_bind; [ apply hushed_responseJson | intros body ].
    apply hushed_get.
  - intros e.
    apply hushed_bind; [ apply hushed_emit, Hout | intros _; apply hushed_ret ].
Qed.

Lemma assets_unlabelled (W : World) (mintId : string) :
  hushed classification (fetchAssetInfo W mintId).
Proof. apply hushed_fetchAssetInfo; reflexivity. Qed.

Lemma fetchAssetInfo_result (W : World) (mintId : string) :
  result (fetchAssetInfo W mintId) = Ok (assetInfoOf W mintId).
Proof.
  unfold assetInfoOf.
  destruct (fetchAssetInfo_returns W mintId) as [info ->]; reflexivity.
Qed.

Lemma assetAnswer_result (W : World) (mintId : string) :
  result (assetAnswer W mintId) = Ok (assetInfoOf W mintId).
Proof.
  unfold assetInfoOf, assetAnswer, fetchAssetInfo.
  destruct (getAsset W mintId) as [ | | body ]; try reflexivity.
  cbn; unfold get; destruct (JS.nullish body); reflexivity.
Qed.

Lemma hushed_assetAnswer {B} (f : event -> list B) (W : World) (mintId : string) :
  (forall text args, f (Out ErrorC text args) = []) ->
  hushed f (assetAnswer W mintId).
Proof.
  intros Hout; unfold assetAnswer, out.
  apply hushed_try_catch.
  - apply hushed_bind; [ apply hushed_responseJson | intros body ].
    apply hushed_get.
  - intros e.
    apply hushed_bind; [ apply hushed_emit, Hout | intros _; apply hushed_ret ].
Qed.

Lemma hushed_lookupBoth {B} (f : event -> list B) (W : World) (a b : string) :
  (forall method subject, f (RpcCall method subject None) = []) ->
  (forall text args, f (Out ErrorC text args) = []) ->
  hushed f (lookupBoth W a b).
Proof.
  intros Hrpc Hout; unfold lookupBoth.
  do 2 (apply hushed_bind; [ apply hushed_emit, Hrpc | intros _ ]).
  destruct (firstSettlesFirst W a b);
    do 2 (apply hushed_bind; [ apply hushed_assetAnswer, Hout | intros ? ]);
    apply hushed_ret.
Qed.

Lemma lookupBoth_result (W : World) (a b : string) :
  result (lookupBoth W a b) = Ok (assetInfoOf W a, assetInfoOf W b).
Proof.
  unfold lookupBoth; rewrite !result_bind; cbn [emit result snd].
  destruct (firstSettlesFirst W a b);
    rewrite result_bind, assetAnswer_result, result_bind, assetAnswer_result;
    reflexivity.
Qed.

Lemma createTransactionCard_result (W : World) (data : card) :
  trace (createTransactionCard W data) = []
  /\ (cardReturns W data = true ->
      exists text, result (createTransactionCard W data) = Ok text)
  /\ (cardReturns W data = false ->
      exists e, exoticCard W data = Raises e
                /\ result (createTransactionCard W data) = Throw e).
Proof.
  unfold createTransactionCard, cardReturns.
  destruct (plainCard data); cbn [orb].
  - split; [ reflexivity | ].
    split; [ intros _; eexists; reflexivity | discriminate ].
  - destruct (exoticCard W data) as [ text | e ]; cbn [lift].
    + split; [ reflexivity | ].
      split; [ intros _; eexists; reflexivity | discriminate ].
    + split; [ reflexivity | ].
      split; [ discriminate | intros _; exists e; split; reflexivity ].
Qed.

(** One pass of the trade loop of the first variant: the two lookups,
    then the card if it is [cardPrinted], and a TypeError otherwise. *)
Lemma renderTrade_shape (W : World) (tx : parsedTx) (m : txMeta)
    (signature : JS.value) (t : trade) :
  let lookup := lookupBoth W (mint (inputToken t)) (mint (outputToken t)) in
  (cardPrinted W tx m signature t = true ->
   renderTrade W tx m signature t
   = ((trace lookup ++ [PrintCard (cardOf W tx m signature t)])%list, Ok tt))
  /\ (cardPrinted W tx m signature t = false ->
      exists e, renderTrade W tx m signature t = (trace lookup, Throw e)).
Proof.
  intros lookup.
  destruct (createTransactionCard_result W (cardOf W tx m signature t))
    as (Htrace & Hok & Hthrow).
  pose proof (lookupBoth_result W (mint (inputToken t)) (mint (outputToken t)))
    as Hlookup.
  fold lookup in Hlookup.
  unfold renderTrade, cardPrinted; fold lookup.
  rewrite (bind_eq lookup), Hlookup; cbn [fst snd].
  change {| c_type := transactionType First t;
            c_inputToken := cardTokenOf W (assetInfoOf W (mint (inputToken t)))
                              (inputToken t);
            c_outputToken := cardTokenOf W (assetInfoOf W (mint (outputToken t)))
                               (outputToken t);
            c_status := if err m then "failed" else "success";
            c_fee := feeInSol m;
            c_timestamp := blockTime tx * 1000;
            c_signature := signature |}
    with (cardOf W tx m signature t).
  rewrite !toText_eq.
  destruct (JS.convertible (imageUrlOf (assetInfoOf W (mint (inputToken t)))));
    cbn [andb bind trace result fst snd app].
  2:{ rewrite app_nil_r; split; [ discriminate | intros _; eexists; reflexivity ]. }
  destruct (JS.convertible (imageUrlOf (assetInfoOf W (mint (outputToken t)))));
    cbn [andb bind trace result fst snd app].
  2:{ rewrite app_nil_r; split; [ discriminate | intros _; eexists; reflexivity ]. }
  rewrite (bind_eq (createTransactionCard W _)), Htrace.
  split.
  - intros Hret; destruct (Hok Hret) as [text ->]; reflexivity.
  - intros Hret; destruct (Hthrow Hret) as (e & _ & ->).
    exists e; cbn [trace result fst snd app]; now rewrite app_nil_r.
Qed.

(** What an observer that ignores the lookups sees of the trade loop of
    the first variant: the cards of the trades before the first one whose
    card cannot be made. *)
Lemma renderTrades_observe {B} (f : event -> list B) (W : World) (tx : parsedTx)
    (m : txMeta) (signature : JS.value) (trades : list trade) :
  (forall method subject, f (RpcCall method subject None) = []) ->
  (forall text args, f (Out ErrorC text args) = []) ->
  observe f (trace (forEach trades (renderTrade W tx m signature)))
  = flat_map (fun t => f (PrintCard (cardOf W tx m signature t)))
             (printedTrades W tx m signature trades).
Proof.
  intros Hrpc Hout.
  induction trades as [ | t rest IH ]; [ reflexivity | ].
  cbn [forEach printedTrades]; rewrite trace_bind.
  destruct (hushed_lookupBoth f W (mint (inputToken t)) (mint (outputToken t))
              Hrpc Hout) as [Hquiet _].
  destruct (renderTrade_shape W tx m signature t) as [Hok Hthrow].
  destruct (cardPrinted W tx m signature t).
  - rewrite (Hok eq_refl); cbn [trace result fst snd].
    rewrite !observe_app, Hquiet, IH; cbn [app flat_map observe].
    now rewrite app_nil_r.
  - destruct (Hthrow eq_refl) as (e & ->); cbn [trace result fst snd].
    now rewrite app_nil_r, Hquiet.
Qed.

Lemma renderTrades_result (W : World) (tx : parsedTx) (m : txMeta)
    (signature : JS.value) (trades : list trade) :
  (allShown First W tx m signature trades = true ->
   result (forEach trades (renderTrade W tx m signature)) = Ok tt
   /\ printedTrades W tx m signature trades = trades)
  /\ (allShown First W tx m signature trades = false ->
      (exists e, result (forEach trades (renderTrade W tx m signature)) = Throw e)
      /\ (List.length (printedTrades W tx m signature trades)
          < List.length trades)%nat).
Proof.
  cbn [allShown].
  induction trades as [ | t rest [IHok IHthrow] ].
  - split; [ split; reflexivity | discriminate ].
  - cbn [forEach printedTrades forallb]; rewrite result_bind.
    destruct (renderTrade_shape W tx m signature t) as [Hok Hthrow].
    destruct (cardPrinted W tx m signature t); cbn [andb].
    + rewrite (Hok eq_refl); cbn [result snd].
      split.
      * intros Hall; destruct (IHok Hall) as [-> ->]; split; reflexivity.
      * intros Hall; destruct (IHthrow Hall) as [He Hlen].
        split; [ exact He | cbn [List.length]; lia ].
    + destruct (Hthrow eq_refl) as (e & ->); cbn [result snd].
      split; [ discriminate | ].
      intros _; split; [ exists e; reflexivity | cbn [List.length]; lia ].
Qed.

Lemma printedTrades_prefix (W : World) (tx : parsedTx) (m : txMeta)
    (signature : JS.value) (trades : list trade) :
  exists rest, trades = (printedTrades W tx m signature trades ++ rest)%list.
Proof.
  induction trades as [ | t rest [tail IH] ]; [ exists []; reflexivity | ].
  cbn [printedTrades].
  destruct (cardPrinted W tx m signature t).
  - exists tail; cbn [app]; now rewrite <- IH.
  - exists (t :: rest); reflexivity.
Qed.

(** *** The second variant *)

Lemma detailLine_eq (label : string) (v : JS.value) :
  detailLine label v =
  ([], if printable v
       then Ok (if JS.truthy v then [(label, v)] else [])
       else Throw (JS.TypeError "Cannot convert object to primitive value")).
Proof.
  unfold detailLine, printable.
  destruct (JS.truthy v); [ | reflexivity ].
  rewrite toText_eq; cbn [negb orb].
  destruct (JS.convertible v); reflexivity.
Qed.

Lemma formatNumber_eq (v : JS.value) :
  formatNumber v =
  ([], if isNumber v then Ok v
       else Throw (JS.TypeError "Input must be a valid number")).
Proof. destruct v; reflexivity. Qed.

(** getTokenDetails prints nothing; it returns lines, at least one, when
    the token information is [detailsPrintable], and throws otherwise. *)
Lemma getTokenDetails_result (info : JS.value) :
  trace (getTokenDetails info) = []
  /\ (detailsPrintable info = true ->
      exists l, result (getTokenDetails info) = Ok l /\ l <> [])
  /\ (detailsPrintable info = false ->
      exists e, result (getTokenDetails info) = Throw e).
Proof.
  unfold getTokenDetails, detailsPrintable.
  destruct (JS.truthy info); cbn [negb orb].
  2:{ split; [ reflexivity | ].
      split; [ intros _; eexists; split; [ reflexivity | discriminate ]
             | discriminate ]. }
  rewrite !detailLine_eq, formatNumber_eq.
  destruct (printable (metadataOf info "name")); cbn [andb bind];
    [ | split; [ reflexivity | split; [ discriminate | eexists; reflexivity ] ] ].
  destruct (printable (metadataOf info "symbol")); cbn [andb bind app];
    [ | split; [ reflexivity | split; [ discriminate | eexists; reflexivity ] ] ].
  destruct (printable (JS.prop info "id")); cbn [andb bind app];
    [ | split; [ reflexivity | split; [ discriminate | eexists; reflexivity ] ] ].
  destruct (printable (imageOf info)); cbn [andb bind app];
    [ | split; [ reflexivity | split; [ discriminate | eexists; reflexivity ] ] ].
  destruct (JS.truthy (JS.prop (JS.prop info "tokenInfo") "supply"));
    cbn [negb orb andb bind app ret].
  - destruct (isNumber (JS.prop (JS.prop info "tokenInfo") "supply"));
      cbn [andb bind app];
      [ | split; [ reflexivity | split; [ discriminate | eexists; reflexivity ] ] ].
    destruct (printable (JS.prop (JS.prop info "tokenInfo") "decimals"));
      cbn [andb bind app];
      [ | split; [ reflexivity | split; [ discriminate | eexists; reflexivity ] ] ].
    split; [ reflexivity | ].
    split; [ intros _; eexists; split; [ reflexivity | ] | discriminate ].
    cbn [result snd ret fst].
    repeat match goal with |- context [ if ?b then _ else _ ] => destruct b end;
      discriminate.
  - destruct (printable (JS.prop (JS.prop info "tokenInfo") "decimals"));
      cbn [andb bind app];
      [ | split; [ reflexivity | split; [ discriminate | eexists; reflexivity ] ] ].
    split; [ reflexivity | ].
    split; [ intros _; eexists; split; [ reflexivity | ] | discriminate ].
    cbn [result snd ret fst].
    repeat match goal with |- context [ if ?b then _ else _ ] => destruct b end;
      discriminate.
Qed.

Lemma hushed_getTokenDetails {B} (f : event -> list B) (info : JS.value) :
  hushed f (getTokenDetails info).
Proof.
  destruct (getTokenDetails_result info) as (Htrace & Hok & Hthrow).
  split; [ now rewrite Htrace | ].
  intros c; destruct (detailsPrintable info).
  - destruct (Hok eq_refl) as (l & -> & _); discriminate.
  - destruct (Hthrow eq_refl) as (e & ->); discriminate.
Qed.

Lemma hushed_describeTrade {B} (f : event -> list B) (W : World) (t : trade) :
  (forall method subject, f (RpcCall method subject None) = []) ->
  (forall text args, f (Out ErrorC text args) = []) ->
  hushed f (describeTrade W t).
Proof.
  intros Hrpc Hout; unfold describeTrade.
  do 2 (apply hushed_bind; [ apply hushed_fetchAssetInfo; assumption | intros ? ]).
  do 2 (apply hushed_bind; [ apply hushed_getTokenDetails | intros ? ]).
  do 2 (apply hushed_bind; [ apply hushed_toText | intros ? ]).
  apply hushed_ret.
Qed.

Lemma hushed_describeTrades {B} (f : event -> list B) (W : World)
    (trades : list trade) :
  (forall method subject, f (RpcCall method subject None) = []) ->
  (forall text args, f (Out ErrorC text args) = []) ->
  forall type details, hushed f (describeTrades W trades type details).
Proof.
  intros Hrpc Hout.
  induction trades as [ | t rest IH ]; intros type details; cbn [describeTrades].
  - apply hushed_ret.
  - apply hushed_bind; [ apply hushed_describeTrade; assumption | intros d; apply IH ].
Qed.

(** The block of one trade: written, with the trade's own label, exactly
    when the trade is [describable]. *)
Lemma describeTrade_result (W : World) (t : trade) :
  (describable W t = true ->
   exists d, result (describeTrade W t) = Ok (transactionType Second t, d)
             /\ d_type d = transactionType Second t)
  /\ (describable W t = false ->
      exists e, result (describeTrade W t) = Throw e).
Proof.
  unfold describeTrade, describable.
  rewrite result_bind, fetchAssetInfo_result, result_bind, fetchAssetInfo_result.
  set (a := assetInfoOf W (mint (inputToken t))).
  set (b := assetInfoOf W (mint (outputToken t))).
  destruct (getTokenDetails_result a) as (_ & Hoka & Hthrowa).
  destruct (getTokenDetails_result b) as (_ & Hokb & Hthrowb).
  rewrite result_bind.
  destruct (detailsPrintable a); cbn [andb].
  2:{ destruct (Hthrowa eq_refl) as (e & ->).
      split; [ discriminate | intros _; exists e; reflexivity ]. }
  destruct (Hoka eq_refl) as (la & -> & _).
  rewrite result_bind.
  destruct (detailsPrintable b); cbn [andb].
  2:{ destruct (Hthrowb eq_refl) as (e & ->).
      split; [ discriminate | intros _; exists e; reflexivity ]. }
  destruct (Hokb eq_refl) as (lb & -> & _).
  rewrite result_bind, toText_eq; cbn [result snd].
  destruct (JS.convertible (JS.or (metadataOf a "symbol") (JS.Str "Unknown")));
    cbn [andb].
  2:{ split; [ discriminate | intros _; eexists; reflexivity ]. }
  rewrite result_bind, toText_eq; cbn [result snd].
  destruct (JS.convertible (JS.or (metadataOf b "symbol") (JS.Str "Unknown"))).
  2:{ split; [ discriminate | intros _; eexists; reflexivity ]. }
  split; [ intros _; eexists; split; reflexivity | discriminate ].
Qed.

Lemma last_cons_default {A} (x : A) (l : list A) (d : A) :
  last (x :: l) d = last l x.
Proof.
  revert x d; induction l as [ | y rest IH ]; intros x d; [ reflexivity | ].
  change (last (x :: y :: rest) d) with (last (y :: rest) d).
  now rewrite !IH.
Qed.

Lemma describeTrades_result (W : World) (trades : list trade) :
  forall type details,
    (forallb (describable W) trades = true ->
     exists r,
       result (describeTrades W trades type details) = Ok r
       /\ fst r = last (map (transactionType Second) trades) type
       /\ map d_type (snd r)
          = (map d_type details ++ map (transactionType Second) trades)%list)
    /\ (forallb (describable W) trades = false ->
        exists e, result (describeTrades W trades type details) = Throw e).
Proof.
  induction trades as [ | t rest IH ]; intros type details.
  - split; [ | discriminate ].
    intros _; exists (type, details); cbn; now rewrite app_nil_r.
  - cbn [describeTrades forallb]; rewrite result_bind.
    destruct (describeTrade_result W t) as [Hok Hthrow].
    destruct (describable W t); cbn [andb].
    + destruct (Hok eq_refl) as (d & -> & Hd); cbn [fst snd].
      destruct (IH (transactionType Second t) (details ++ [d])%list)
        as [IHok IHthrow].
      split; [ | exact IHthrow ].
      intros Hall; destruct (IHok Hall) as (r & Hr & Hfst & Hlab).
      exists r; split; [ exact Hr | ].
      split.
      * rewrite Hfst; cbn [map]; symmetry; apply last_cons_default.
      * rewrite Hlab, map_app, <- app_assoc; cbn [map app]; now rewrite Hd.
    + destruct (Hthrow eq_refl) as (e & ->).
      split; [ discriminate | intros _; exists e; reflexivity ].
Qed.

Lemma flat_map_singleton {A B} (f : A -> B) (l : list A) :
  flat_map (fun x => [f x]) l = map f l.
Proof.
  induction l as [ | x rest IH ]; [ reflexivity | ].
  cbn [flat_map map app]; now rewrite IH.
Qed.

Lemma Forall2_labelled (v : variant) (trades : list trade) :
  Forall2 (labelled v) trades (map (transactionType v) trades).
Proof.
  induction trades as [ | t rest IH ]; constructor;
    [ apply transactionType_labelled | exact IH ].
Qed.

Lemma lookupAndRender_found (v : variant) (W : World) (signature : JS.value)
    (tx : parsedTx) (m : txMeta) :
  getParsedTransaction W signature = Returns (Some tx) ->
  meta tx = Some m ->
  belowMinimum (fee m) = false ->
  lookupAndRender v W signature =
  try_catch (renderFound v W tx m signature)
    (fun e =>
       out SpinFail "Error parsing transaction " [V signature] ;;
       out ErrorC "" [E e]).
Proof.
  intros Htx Hmeta Hfee.
  unfold lookupAndRender; rewrite Htx; cbn [lift]; unfold ret at 1.
  rewrite bind_ret_l; unfold renderAnswer, metaOf; rewrite Hmeta; unfold ret at 1.
  now rewrite bind_ret_l, Hfee.
Qed.

(** The whole render of a transaction that is found and not filtered
    out, in the first variant: the cards of [printedTrades] between the
    lookups, then success, or the failure of the first card that cannot
    be made. *)
Lemma first_variant_render (W : World) (signature : JS.value) (wallet : string)
    (tx : parsedTx) (m : txMeta) (trades : list trade) :
  JS.truthy signature = true ->
  getParsedTransaction W signature = Returns (Some tx) ->
  meta tx = Some m ->
  belowMinimum (fee m) = false ->
  parseTrades W tx = Returns trades ->
  let loop := forEach trades (renderTrade W tx m signature) in
  trace (parseTransaction First W signature wallet)
  = ([Out SpinStart "Parsing transaction..." [];
      GetParsedTransaction signature;
      ParseTrades tx]
     ++ trace loop
     ++ match result loop with
        | Ok _ => [Out SpinSucceed "Transaction parsed successfully" []]
        | Throw e => [Out SpinFail "Error parsing transaction " [V signature];
                      Out ErrorC "" [E e]]
        | Exit _ => []
        end)%list.
Proof.
  intros Hsig Htx Hmeta Hfee Htrades loop.
  rewrite (parseTransaction_valid First W signature wallet Hsig), trace_pair.
  rewrite (lookupAndRender_found First W signature tx m Htx Hmeta Hfee).
  unfold renderFound; rewrite Htrades; cbn [lift]; unfold out, emit, ret.
  fold loop.
  rewrite (bind_eq ([ParseTrades tx], Ok tt)); cbn [result trace fst snd].
  rewrite bind_ret_l, (bind_eq loop).
  destruct (result loop) as [ [] | e | c ];
    cbn [try_catch bind result trace fst snd app]; rewrite ?app_nil_r; reflexivity.
Qed.

(** The same in the second variant: success is announced first; the box
    comes last, if the blocks of all trades and the signature line can
    be written. *)
Lemma second_variant_render (W : World) (signature : JS.value) (wallet : string)
    (tx : parsedTx) (m : txMeta) (trades : list trade) :
  JS.truthy signature = true ->
  getParsedTransaction W signature = Returns (Some tx) ->
  meta tx = Some m ->
  belowMinimum (fee m) = false ->
  parseTrades W tx = Returns trades ->
  let described := describeTrades W trades "Unknown" [] in
  trace (parseTransaction Second W signature wallet)
  = ([Out SpinStart "Parsing transaction..." [];
      GetParsedTransaction signature;
      Out SpinSucceed "Transaction parsed successfully" [];
      ParseTrades tx]
     ++ trace described
     ++ match result described with
        | Ok r =>
            if JS.convertible signature
            then [PrintBox {| b_type := fst r;
                              b_signature := signature;
                              b_timestamp := blockTime tx * 1000;
                              b_failed := err m;
                              b_fee := feeInSol m;
                              b_details := snd r;
                              b_border := borderOf (fst r) |}]
            else [Out SpinFail "Error parsing transaction " [V signature];
                  Out ErrorC ""
                    [E (JS.TypeError "Cannot convert object to primitive value")]]
        | Throw e => [Out SpinFail "Error parsing transaction " [V signature];
                      Out ErrorC "" [E e]]
        | Exit _ => []
        end)%list.
Proof.
  intros Hsig Htx Hmeta Hfee Htrades described.
  rewrite (parseTransaction_valid Second W signature wallet Hsig), trace_pair.
  rewrite (lookupAndRender_found Second W signature tx m Htx Hmeta Hfee).
  unfold renderFound; rewrite Htrades; cbn [lift]; unfold out, emit, ret.
  fold described.
  rewrite (bind_eq ([Out SpinSucceed _ _], Ok tt)); cbn [result trace fst snd].
  rewrite (bind_eq ([ParseTrades tx], Ok tt)); cbn [result trace fst snd].
  rewrite bind_ret_l, (bind_eq described).
  destruct (result described) as [ r | e | c ];
    [ rewrite toText_eq; destruct (JS.convertible signature) | | ];
    cbn [try_catch bind result trace fst snd app]; rewrite ?app_nil_r; reflexivity.
Qed.

(** The labels that a render shows are those of [shownTrades]. *)
Lemma shown_labels (v : variant) (W : World) (signature : JS.value)
    (wallet : string) (tx : parsedTx) (m : txMeta) (trades : list trade) :
  JS.truthy signature = true ->
  getParsedTransaction W signature = Returns (Some tx) ->
  meta tx = Some m ->
  belowMinimum (fee m) = false ->
  parseTrades W tx = Returns trades ->
  classifications (trace (parseTransaction v W signature wallet))
  = map (transactionType v) (shownTrades v W tx m signature trades).
Proof.
  intros Hsig Htx Hmeta Hfee Htrades.
  destruct v; cbn [shownTrades].
  - rewrite (first_variant_render W signature wallet tx m trades
               Hsig Htx Hmeta Hfee Htrades).
    unfold classifications; rewrite !observe_app.
    rewrite (renderTrades_observe classification W tx m signature trades)
      by reflexivity.
    cbn [observe flat_map classification app].
    replace (observe classification _) with (@nil string).
    2:{ destruct (result (forEach trades (renderTrade W tx m signature)));
          reflexivity. }
    rewrite app_nil_r.
    apply (flat_map_singleton (fun t => c_type (cardOf W tx m signature t))).
  - rewrite (second_variant_render W signature wallet tx m trades
               Hsig Htx Hmeta Hfee Htrades).
    unfold classifications; rewrite !observe_app.
    destruct (hushed_describeTrades classification W trades) with
      (type := "Unknown") (details := @nil tradeDetails) as [Hquiet Hexit];
      try reflexivity.
    rewrite Hquiet; cbn [observe flat_map classification app].
    destruct (describeTrades_result W trades "Unknown" []) as [Hok Hthrow].
    unfold boxPrinted.
    destruct (forallb (describable W) trades); cbn [andb].
    + destruct (Hok eq_refl) as (r & -> & _ & Hlab).
      destruct (JS.convertible signature); [ | reflexivity ].
      cbn; now rewrite app_nil_r, Hlab.
    + destruct (Hthrow eq_refl) as (e & ->); reflexivity.
Qed.

Lemma shownTrades_all (v : variant) (W : World) (tx : parsedTx) (m : txMeta)
    (signature : JS.value) (trades : list trade) :
  allShown v W tx m signature trades = true ->
  shownTrades v W tx m signature trades = trades.
Proof.
  destruct v; cbn [allShown shownTrades]; intros Hall.
  - apply (proj1 (renderTrades_result W tx m signature trades)), Hall.
  - now rewrite Hall.
Qed.

(** C9.  For a transaction that is found, passes the fee filter and in
    which the parser finds [trades], every label shown is the buy label
    exactly when the mint of the trade's input token is
    [CONFIG.SOL_MINT], and the sell label otherwise.  The labels shown
    are those of [shownTrades], trade by trade and in the parser's order:
    of every trade when the card of each can be made (first variant) or
    the box can be written (second variant); otherwise of the trades
    before the first card that cannot be made, or of none. *)
Theorem trade_is_buy_iff_input_mint_is_sol :
  forall (v : variant) (W : World) (signature : JS.value) (wallet : string)
         (tx : parsedTx) (m : txMeta) (trades : list trade),
    JS.truthy signature = true ->
    getParsedTransaction W signature = Returns (Some tx) ->
    meta tx = Some m ->
    belowMinimum (fee m) = false ->
    parseTrades W tx = Returns trades ->
    let labels := classifications (trace (parseTransaction v W signature wallet)) in
    Forall2 (labelled v) (shownTrades v W tx m signature trades) labels
    /\ (exists rest,
           trades = (shownTrades v W tx m signature trades ++ rest)%list)
    /\ (allShown v W tx m signature trades = true ->
        Forall2 (labelled v) trades labels).
Proof.
  intros v W signature wallet tx m trades Hsig Htx Hmeta Hfee Htrades labels.
  subst labels.
  rewrite (shown_labels v W signature wallet tx m trades Hsig Htx Hmeta Hfee Htrades).
  split; [ apply Forall2_labelled | ].
  split.
  - destruct v; cbn [shownTrades].
    + apply printedTrades_prefix.
    + destruct (boxPrinted W signature trades);
        [ exists []; now rewrite app_nil_r | exists trades; reflexivity ].
  - intros Hall; rewrite (shownTrades_all v W tx m signature trades Hall).
    apply Forall2_labelled.
Qed.

Lemma trade_is_buy_iff_input_mint_is_sol_witness :
  Forall2 (labelled Second) [Demo.buy; Demo.sell]
          (classifications (trace (parseTransaction Second Demo.world (JS.Str "sigA")
                                     Demo.wallet))).
Proof.
  apply (proj2 (proj2
           (trade_is_buy_iff_input_mint_is_sol Second Demo.world (JS.Str "sigA")
              Demo.wallet Demo.swapTx (mkMeta 2000000 false) [Demo.buy; Demo.sell]
              eq_refl eq_refl eq_refl eq_refl eq_refl)));
    reflexivity.
Defined.

(** ** Start-up *)

Lemma second_variant_validates_key (W : World) (e : env) (cmd : command)
    (resp : http) :
  main Second W e cmd resp =
  if JS.truthy (HELIUS_API_KEY e)
  then dispatch Second W e cmd resp
  else ([Out ErrorC "Error: Missing HELIUS_API_KEY environment variable" []],
        Exit 1).
Proof.
  unfold main, validateConfig.
  destruct (JS.truthy (HELIUS_API_KEY e)); cbn [negb]; unfold ret.
  - now rewrite bind_ret_l.
  - reflexivity.
Qed.

Lemma first_variant_ignores_key (W : World) (e : env) (cmd : command)
    (resp : http) :
  main First W e cmd resp =
  (ClearScreen :: Splash :: Mkdir :: trace (dispatch First W e cmd resp),
   result (dispatch First W e cmd resp)).
Proof.
  unfold main, validateConfig, ret; rewrite bind_ret_l.
  unfold emit, bind.
  destruct (dispatch First W e cmd resp) as [t r]; reflexivity.
Qed.

(** C3.  With no API key in the environment and a fetch on the command
    line, the second variant prints its diagnostic and exits with status 1
    before any request, while the first variant, which has no such check,
    starts up, sends the signature request to the provider and ends
    normally. *)
Theorem first_variant_starts_without_api_key :
  main Second Demo.world Demo.noKey (CmdFetch Demo.wallet None) (Demo.answer [])
  = ([Out ErrorC "Error: Missing HELIUS_API_KEY environment variable" []], Exit 1)
  /\ main First Demo.world Demo.noKey (CmdFetch Demo.wallet None) (Demo.answer [])
     = ([ClearScreen; Splash; Mkdir;
         Out SpinStart "Fetching transactions..." [];
         RpcCall "getSignaturesForAddress" Demo.wallet (Some 5);
         Out SpinFail "No transactions found" []],
        Ok emptyLoop)
  /\ existsb isProviderCall
       (trace (main First Demo.world Demo.noKey (CmdFetch Demo.wallet None)
                 (Demo.answer []))) = true.
Proof. repeat split. Qed.

(** * Further properties of the program *)

(** ** What the loop does besides rendering *)

(** X1.  Whatever callback is passed to setupWebSocket, the message
    handler contains its failures: if the callback does not end the
    process, the handler returns normally on every frame and every
    provider answer, also when the callback throws. *)
Theorem message_handler_never_throws :
  forall (v : variant) (W : World) (wallet : string) (h : JS.value -> M unit)
         (data : wire) (resp : http),
    (forall s c, result (h s) <> Exit c) ->
    result (onMessage v W wallet h data resp) = Ok tt.
Proof.
  intros v W wallet h data resp Hh.
  assert (Hexit : forall c, result (onMessage v W wallet h data resp) <> Exit c).
  { apply (hushed_onMessage (fun _ : event => @nil unit)).
    - reflexivity.
    - intros s; split; [ | apply Hh ].
      induction (trace (h s)); [ reflexivity | assumption ]. }
  revert Hexit; unfold onMessage; rewrite result_try_catch.
  match goal with
  | |- context [ result ?body ] => destruct (result body) as [ [] | e | c ]
  end; intros Hexit; try reflexivity.
  exfalso; exact (Hexit c eq_refl).
Qed.

Lemma message_handler_never_throws_witness :
  result (onMessage Second Demo.world Demo.wallet
            (fun _ => throw (JS.LibraryError "callback failed"))
            Demo.notification (Demo.answer ["sigA"])) = Ok tt.
Proof.
  apply (message_handler_never_throws Second Demo.world Demo.wallet
           (fun _ => throw (JS.LibraryError "callback failed"))
           Demo.notification (Demo.answer ["sigA"])).
  intros s c; discriminate.
Defined.

Lemma loopOnly_observe {B} (f : event -> list B) (t : list event) :
  (forall ev, loopEvent ev = false -> f ev = []) ->
  observe loopOnly t = [] -> observe f t = [].
Proof.
  intros Hf; induction t as [ | ev rest IH ]; [ reflexivity | ].
  rewrite !observe_cons; unfold loopOnly at 1.
  destruct (loopEvent ev) eqn:Hev; [ discriminate | ].
  cbn [app]; intros H; rewrite (Hf ev Hev), (IH H); reflexivity.
Qed.

Lemma nth_error_setNth_same {A} (l : list A) (n : nat) (x y : A) :
  nth_error l n = Some y -> nth_error (setNth l n x) n = Some x.
Proof.
  revert n; induction l as [ | z rest IH ]; intros [ | n ] H; simpl in *;
    try discriminate; auto.
Qed.

Lemma nth_error_setNth_other {A} (l : list A) (n m : nat) (x : A) :
  n <> m -> nth_error (setNth l n x) m = nth_error l m.
Proof.
  revert n m; induction l as [ | z rest IH ]; intros [ | n ] [ | m ] H; simpl;
    try reflexivity; try congruence.
  apply IH; congruence.
Qed.

Lemma length_setNth {A} (l : list A) (n : nat) (x : A) :
  List.length (setNth l n x) = List.length l.
Proof.
  revert n; induction l as [ | z rest IH ]; intros [ | n ]; simpl; auto.
Qed.

(** The five things a callback can do to the loop. *)
Lemma step_cases (v : variant) (W : World) (wallet : string) (s : loop) (i : input) :
  let m := step v W wallet (renderHandler v W wallet) s i in
  (exists id,
      i = Opened id /\ stateOf s id = Some CONNECTING
      /\ m = ([Out LogC "WebSocket connected - watching for new transactions..." [];
               WsSend id "accountSubscribe" wallet;
               SetInterval 30000 id],
              Ok (mkLoop (setNth (sockets s) id OPEN) (timeouts s)
                         (intervals s ++ [id]))))
  \/ (exists id,
         i = Closed id /\ live (stateOf s id) = true
         /\ m = ([Out LogC "WebSocket disconnected - attempting to reconnect..." [];
                  SetTimeout 5000],
                 Ok (mkLoop (setNth (sockets s) id CLOSED) (timeouts s ++ [5000])
                            (intervals s))))
  \/ (exists d rest,
         i = TimeoutFired /\ timeouts s = d :: rest
         /\ m = ([WsConnect (List.length (sockets s))],
                 Ok (mkLoop (sockets s ++ [CONNECTING]) rest (intervals s))))
  \/ (exists k id,
         i = IntervalFired k /\ nth_error (intervals s) k = Some id
         /\ stateOf s id = Some OPEN
         /\ m = ([WsPing id], Ok s))
  \/ (result m = Ok s /\ observe loopOnly (trace m) = []).
Proof.
  intros m; subst m.
  destruct i as [ id | id data resp | id e | id | | k ].
  - destruct (stateOf s id) as [ [ | | ] | ] eqn:Hst;
      [ left; exists id; unfold step; rewrite Hst; auto
      | | | ];
      right; right; right; right; unfold step; rewrite Hst; split; reflexivity.
  - right; right; right; right.
    rewrite step_message.
    destruct (isOpen s id); [ | split; reflexivity ].
    destruct (onMessage_render v W wallet data resp) as [Hres _].
    rewrite result_bind, trace_bind, Hres; cbn [ret result trace fst snd].
    split; [ reflexivity | ].
    rewrite app_nil_r.
    apply (hushed_onMessage loopOnly).
    + intros ev Hev; unfold loopOnly; now rewrite Hev.
    + intros sig; rewrite renderHandler_eq; apply hushed_parse.
      intros ev Hev; unfold loopOnly; now rewrite Hev.
  - right; right; right; right; unfold step.
    destruct (stateOf s id); split; reflexivity.
  - destruct (live (stateOf s id)) eqn:Hlive.
    + right; left; exists id; rewrite step_closed by assumption; auto.
    + right; right; right; right; unfold step; rewrite Hlive; split; reflexivity.
  - destruct (timeouts s) as [ | d rest ] eqn:Ht.
    + right; right; right; right; unfold step; rewrite Ht; split; reflexivity.
    + right; right; left; exists d, rest.
      rewrite (step_timeout v W wallet _ s d rest Ht); auto.
  - destruct (nth_error (intervals s) k) as [ id | ] eqn:Hk.
    + destruct (stateOf s id) as [ [ | | ] | ] eqn:Hst;
        [ | right; right; right; left; exists k, id; unfold step; rewrite Hk, Hst; auto
          | | ];
        right; right; right; right; unfold step; rewrite Hk, Hst; split; reflexivity.
    + right; right; right; right; unfold step; rewrite Hk; split; reflexivity.
Qed.

Lemma quiet_step_observe {B} (f : event -> list B) (t : list event) :
  observe loopOnly t = [] ->
  (forall ev, loopEvent ev = false -> f ev = []) ->
  observe f t = [].
Proof. intros H Hf; now apply loopOnly_observe. Qed.

Ltac quiet_step H :=
  unfold subscriptions, connects, pings, reconnects;
  rewrite ?(quiet_step_observe _ _ H)
    by (let ev := fresh "ev" in
        let Hev := fresh "Hev" in
        intros ev Hev; destruct ev; (discriminate || reflexivity)).

Lemma step_consistent (v : variant) (W : World) (wallet : string) (s : loop)
    (i : input) (p : progress) :
  consistent s p ->
  let m := step v W wallet (renderHandler v W wallet) s i in
  exists s',
    result m = Ok s'
    /\ consistent s' (mkProgress (subscribed p ++ subscriptions (trace m))
                                 (created p + List.length (connects (trace m))))
    /\ (forall id, In id (pings (trace m)) -> In id (subscribed p)).
Proof.
  intros (Hnd & Hsub & Hopen & Hlen) m.
  destruct (step_cases v W wallet s i)
    as [ (id & -> & Hst & Hm)
       | [ (id & -> & Hlive & Hm)
         | [ (d & rest & -> & Ht & Hm)
           | [ (k & id & -> & Hk & Hst & Hm)
             | [Hres Hquiet] ] ] ] ];
    fold m in Hm || fold m in Hres, Hquiet.
  - rewrite Hm; eexists; split; [ reflexivity | ].
    split; [ | intros id' [] ].
    cbn [trace fst subscriptions connects observe flat_map app List.length].
    rewrite Nat.add_0_r.
    assert (Hfresh : ~ In id (subscribed p)).
    { intros Hin; destruct (Hsub id Hin) as (st & Hst' & Hne); congruence. }
    repeat split; cbn [subscribed created sockets].
    + apply NoDup_app; repeat split; auto.
      * constructor; [ intros [] | constructor ].
      * intros a Ha [<- | []]; contradiction.
    + intros id' Hin; unfold stateOf; cbn [sockets].
      destruct (Nat.eq_dec id id') as [<- | Hne].
      * exists OPEN; split; [ | discriminate ].
        apply (nth_error_setNth_same _ _ _ _ Hst).
      * rewrite nth_error_setNth_other by assumption.
        apply in_app_or in Hin; destruct Hin as [Hin | [Heq | []]];
          [ apply Hsub; assumption | contradiction ].
    + intros id'; unfold stateOf; cbn [sockets]; intros Hst'.
      apply in_or_app.
      destruct (Nat.eq_dec id id') as [<- | Hne]; [ right; left; reflexivity | ].
      rewrite nth_error_setNth_other in Hst' by assumption.
      left; apply Hopen; assumption.
    + rewrite length_setNth; assumption.
  - rewrite Hm; eexists; split; [ reflexivity | ].
    split; [ | intros id' [] ].
    cbn [trace fst subscriptions connects observe flat_map app List.length].
    rewrite Nat.add_0_r, app_nil_r.
    destruct (stateOf s id) as [ st | ] eqn:Hst; [ | discriminate ].
    repeat split; cbn [subscribed created sockets]; auto.
    + intros id' Hin; unfold stateOf; cbn [sockets].
      destruct (Nat.eq_dec id id') as [<- | Hne].
      * exists CLOSED; split; [ | discriminate ].
        apply (nth_error_setNth_same _ _ _ _ Hst).
      * rewrite nth_error_setNth_other by assumption. apply Hsub; assumption.
    + intros id'; unfold stateOf; cbn [sockets]; intros Hst'.
      destruct (Nat.eq_dec id id') as [<- | Hne].
      * rewrite (nth_error_setNth_same _ _ _ _ Hst) in Hst'; discriminate.
      * rewrite nth_error_setNth_other in Hst' by assumption.
        apply Hopen; assumption.
    + rewrite length_setNth; assumption.
  - rewrite Hm; eexists; split; [ reflexivity | ].
    split; [ | intros id' [] ].
    cbn [trace fst subscriptions connects observe flat_map app List.length].
    rewrite app_nil_r.
    repeat split; cbn [subscribed created sockets]; auto.
    + intros id' Hin; destruct (Hsub id' Hin) as (st & Hst & Hne).
      exists st; split; [ | assumption ].
      unfold stateOf in *; cbn [sockets].
      rewrite nth_error_app1; [ assumption | ].
      apply nth_error_Some; congruence.
    + intros id'; unfold stateOf; cbn [sockets]; intros Hst.
      apply Hopen; unfold stateOf.
      destruct (Nat.lt_ge_cases id' (List.length (sockets s))) as [Hlt | Hge].
      * now rewrite nth_error_app1 in Hst.
      * rewrite nth_error_app2 in Hst by assumption.
        destruct (id' - List.length (sockets s))%nat as [ | [ | n ] ];
          discriminate.
    + rewrite length_app; cbn [List.length]; lia.
  - rewrite Hm; exists s; split; [ reflexivity | ].
    cbn [trace fst subscriptions connects pings observe flat_map app List.length].
    rewrite Nat.add_0_r, app_nil_r.
    split; [ destruct p; repeat split; auto | ].
    intros id' [<- | []]; apply Hopen; assumption.
  - exists s; split; [ assumption | ].
    quiet_step Hquiet.
    cbn [List.length]; rewrite Nat.add_0_r, app_nil_r.
    split; [ destruct p; repeat split; auto | intros id' [] ].
Qed.

Lemma run_consistent (v : variant) (W : World) (wallet : string)
    (inputs : list input) :
  forall s p,
    consistent s p ->
    let t := trace (run v W wallet (renderHandler v W wallet) s inputs) in
    exists s',
      result (run v W wallet (renderHandler v W wallet) s inputs) = Ok s'
      /\ consistent s' (mkProgress (subscribed p ++ subscriptions t)
                                   (created p + List.length (connects t)))
      /\ (forall id, In id (pings t) -> In id (subscribed p ++ subscriptions t)).
Proof.
  induction inputs as [ | i rest IH ]; intros s p Hc t; subst t.
  - exists s; cbn [run ret trace fst result snd subscriptions connects pings
                     observe flat_map List.length].
    rewrite app_nil_r, Nat.add_0_r.
    split; [ reflexivity | ].
    split; [ destruct p; exact Hc | intros id [] ].
  - destruct (step_consistent v W wallet s i p Hc) as (s1 & Hres1 & Hc1 & Hp1).
    destruct (IH s1 _ Hc1) as (s2 & Hres2 & Hc2 & Hp2).
    cbn [subscribed created] in Hc2, Hp2.
    exists s2; cbn [run].
    rewrite result_bind, trace_bind, Hres1.
    unfold subscriptions, connects, pings in *.
    rewrite !observe_app, length_app, !app_assoc, Nat.add_assoc.
    split; [ exact Hres2 | ].
    split; [ exact Hc2 | ].
    intros id Hin; apply in_app_or in Hin; destruct Hin as [Hin | Hin].
    + apply in_or_app; left; apply in_or_app; left; apply Hp1; assumption.
    + apply Hp2; assumption.
Qed.

Lemma session_consistent (v : variant) (W : World) (wallet : string)
    (inputs : list input) :
  let t := trace (session v W wallet inputs) in
  exists s',
    result (session v W wallet inputs) = Ok s'
    /\ consistent s' (mkProgress (subscriptions t) (List.length (connects t)))
    /\ (forall id, In id (pings t) -> In id (subscriptions t)).
Proof.
  assert (H0 : consistent (mkLoop [CONNECTING] [] []) (mkProgress [] 1)).
  { repeat split; cbn [subscribed created sockets].
    - constructor.
    - intros id [].
    - intros [ | [ | id ] ]; discriminate.
    }
  destruct (run_consistent v W wallet inputs _ _ H0) as (s' & Hres & Hc & Hp).
  cbn [subscribed created app] in Hc, Hp.
  intros t; subst t; exists s'.
  unfold session, trackWallet, setupWebSocket.
  cbn [emptyLoop sockets timeouts intervals List.length app emit ret bind].
  rewrite (surjective_M (run _ _ _ _ _ _)).
  cbn [result trace fst snd].
  unfold subscriptions, connects, pings in *.
  rewrite !observe_cons; cbn [app List.length].
  split; [ exact Hres | split; [ exact Hc | exact Hp ] ].
Qed.

(** X2.  In a track session, whatever the event loop delivers and
    whatever the provider answers, no socket is sent the accountSubscribe
    request twice, and there are never more subscription requests than
    sockets created. *)
Theorem no_socket_is_subscribed_twice :
  forall (v : variant) (W : World) (wallet : string) (inputs : list input),
    NoDup (subscriptions (trace (session v W wallet inputs)))
    /\ (List.length (subscriptions (trace (session v W wallet inputs)))
        <= List.length (connects (trace (session v W wallet inputs))))%nat.
Proof.
  intros v W wallet inputs.
  destruct (session_consistent v W wallet inputs)
    as (s' & _ & (Hnd & Hsub & _ & Hlen) & _).
  cbn [subscribed created] in *.
  split; [ assumption | ].
  rewrite <- Hlen, <- (length_seq (List.length (sockets s')) 0).
  apply NoDup_incl_length; [ assumption | ].
  intros id Hin; destruct (Hsub id Hin) as (st & Hst & _).
  apply in_seq; split; [ lia | ].
  apply nth_error_Some; unfold stateOf in Hst; simpl; congruence.
Qed.

Lemma stale_intervals_run (v : variant) (W : World) (wallet : string)
    (h : JS.value -> M unit) (n : nat) (ks : list nat) :
  Forall (fun k => (k < n)%nat) ks ->
  run v W wallet h (cycleState n) (map IntervalFired ks) = ([], Ok (cycleState n)).
Proof.
  induction 1 as [ | k ks Hk _ IH ]; [ reflexivity | ].
  cbn [map run].
  assert (Hstep : step v W wallet h (cycleState n) (IntervalFired k)
                  = ([], Ok (cycleState n))).
  { unfold step; cbn [cycleState intervals].
    rewrite nth_error_seq.
    destruct (Nat.ltb_spec k n) as [ _ | Hge ]; [ | lia ].
    cbn [Nat.add]; unfold stateOf; unfold cycleState at 1; cbn [sockets].
    rewrite nth_error_app1 by (rewrite repeat_length; assumption).
    rewrite nth_error_repeat by assumption. reflexivity. }
  rewrite Hstep; unfold bind at 1; rewrite IH; reflexivity.
Qed.

(** X3.  A heartbeat ping is only ever sent on a socket that the session
    has subscribed, and only while that socket is open.  The heartbeat
    intervals are never cleared: after [n] transport failures in a row
    [n] of them are still armed, and when all of them fire no ping is
    sent, because their sockets are closed. *)
Theorem heartbeat_only_on_open_sockets :
  forall (v : variant) (W : World) (wallet : string),
    (forall inputs id,
        In id (pings (trace (session v W wallet inputs))) ->
        In id (subscriptions (trace (session v W wallet inputs))))
    /\ (forall s k,
           pings (trace (step v W wallet (renderHandler v W wallet) s
                           (IntervalFired k)))
           = match nth_error (intervals s) k with
             | Some id => if isOpen s id then [id] else []
             | None => []
             end)
    /\ (forall n,
           result (session v W wallet
                     (closeCycles n 0 ++ map IntervalFired (seq 0 n)))
           = Ok (cycleState n)
           /\ intervals (cycleState n) = seq 0 n
           /\ pings (trace (session v W wallet
                              (closeCycles n 0 ++ map IntervalFired (seq 0 n))))
              = []).
Proof.
  intros v W wallet.
  split.
  { intros inputs id.
    destruct (session_consistent v W wallet inputs) as (s' & _ & _ & Hp).
    apply Hp. }
  split.
  { intros s k; unfold step, isOpen.
    destruct (nth_error (intervals s) k) as [ id | ]; [ | reflexivity ].
    destruct (stateOf s id) as [ [ | | ] | ]; reflexivity. }
  intros n.
  assert (Hrun : run v W wallet (renderHandler v W wallet) (cycleState 0)
                   (closeCycles n 0 ++ map IntervalFired (seq 0 n))
                 = (flat_map (cycleTrace wallet) (seq 0 n), Ok (cycleState n))).
  { rewrite run_app, cycles_run, bind_eq; cbn [result trace fst snd Nat.add].
    rewrite stale_intervals_run.
    - cbn [result trace fst snd]; now rewrite app_nil_r.
    - apply Forall_forall; intros k Hk; apply in_seq in Hk; lia. }
  unfold session, trackWallet, setupWebSocket.
  cbn [emptyLoop sockets timeouts intervals List.length app emit ret bind].
  change (mkLoop [CONNECTING] [] []) with (cycleState 0).
  rewrite Hrun; cbn [result trace fst snd].
  split; [ reflexivity | ].
  split; [ reflexivity | ].
  unfold pings; rewrite observe_cons; cbn [app].
  clear Hrun; generalize 0%nat.
  induction n as [ | n IH ]; intros k; [ reflexivity | ].
  cbn [seq flat_map]; rewrite observe_app, IH; reflexivity.
Qed.

Lemma step_timers (v : variant) (W : World) (wallet : string) (s : loop)
    (i : input) :
  let m := step v W wallet (renderHandler v W wallet) s i in
  exists s',
    result m = Ok s'
    /\ (reconnects (trace m) = []
        \/ (isClosed i = true /\ reconnects (trace m) = [5000]))
    /\ (List.length (connects (trace m)) + List.length (timeouts s')
        = List.length (timeouts s) + List.length (reconnects (trace m)))%nat.
Proof.
  intros m.
  destruct (step_cases v W wallet s i)
    as [ (id & -> & Hst & Hm)
       | [ (id & -> & Hlive & Hm)
         | [ (d & rest & -> & Ht & Hm)
           | [ (k & id & -> & Hk & Hst & Hm)
             | [Hres Hquiet] ] ] ] ];
    fold m in Hm || fold m in Hres, Hquiet.
  - rewrite Hm; eexists; split; [ reflexivity | ].
    split; [ left; reflexivity | cbn; lia ].
  - rewrite Hm; eexists; split; [ reflexivity | ].
    split; [ right; split; reflexivity | ].
    cbn [trace fst connects reconnects observe flat_map app List.length timeouts].
    rewrite length_app; cbn [List.length]; lia.
  - rewrite Hm; eexists; split; [ reflexivity | ].
    split; [ left; reflexivity | ].
    cbn [trace fst connects reconnects observe flat_map app List.length timeouts].
    rewrite Ht; cbn [List.length]; lia.
  - rewrite Hm; eexists; split; [ reflexivity | ].
    split; [ left; reflexivity | cbn; lia ].
  - exists s; split; [ assumption | ].
    quiet_step Hquiet.
    split; [ left; reflexivity | cbn; lia ].
Qed.

Lemma run_timers (v : variant) (W : World) (wallet : string)
    (inputs : list input) :
  forall s,
    let t := trace (run v W wallet (renderHandler v W wallet) s inputs) in
    exists s',
      result (run v W wallet (renderHandler v W wallet) s inputs) = Ok s'
      /\ Forall (fun d => d = 5000) (reconnects t)
      /\ (List.length (reconnects t) <= List.length (filter isClosed inputs))%nat
      /\ (List.length (connects t) + List.length (timeouts s')
          = List.length (timeouts s) + List.length (reconnects t))%nat.
Proof.
  induction inputs as [ | i rest IH ]; intros s t; subst t.
  - exists s; cbn; repeat split; (constructor || lia).
  - destruct (step_timers v W wallet s i) as (s1 & Hres1 & Hrec1 & Hcount1).
    destruct (IH s1) as (s2 & Hres2 & Hall2 & Hle2 & Hcount2).
    exists s2; cbn [run filter].
    rewrite result_bind, trace_bind, Hres1.
    unfold reconnects, connects in *.
    rewrite !observe_app, !length_app.
    split; [ exact Hres2 | ].
    split.
    { apply Forall_app; split; [ | assumption ].
      destruct Hrec1 as [-> | [_ ->]]; repeat constructor. }
    split.
    { destruct Hrec1 as [-> | [-> ->]]; cbn [List.length]; [ | lia ].
      destruct (isClosed i); cbn [List.length]; lia. }
    lia.
Qed.

(** X4.  In a track session a reconnect timer is set only in answer to a
    close event and always with a delay of 5000 ms, whatever else the
    event loop delivers (errors, messages, heartbeats): there are at most
    as many timers as close events, and at most one socket more than
    timers. *)
Theorem reconnect_timers_come_from_closes_only :
  forall (v : variant) (W : World) (wallet : string) (inputs : list input),
    let t := trace (session v W wallet inputs) in
    Forall (fun d => d = 5000) (reconnects t)
    /\ (List.length (reconnects t) <= List.length (filter isClosed inputs))%nat
    /\ (List.length (connects t) <= 1 + List.length (reconnects t))%nat.
Proof.
  intros v W wallet inputs t; subst t.
  destruct (run_timers v W wallet inputs (mkLoop [CONNECTING] [] []))
    as (s' & Hres & Hall & Hle & Hcount).
  unfold session, trackWallet, setupWebSocket.
  cbn [emptyLoop sockets timeouts intervals List.length app emit ret bind].
  rewrite (surjective_M (run _ _ _ _ _ _)); cbn [trace fst].
  unfold reconnects, connects in *; rewrite !observe_cons; cbn [app List.length].
  cbn [timeouts List.length] in Hcount.
  repeat split; try assumption; lia.
Qed.

(** ** How a render fails *)



(** ** Token metadata *)

Lemma fetchAssetInfo_missing (W : World) (mintId : string) :
  getAsset W mintId = NetFail
  \/ getAsset W mintId = BadBody
  \/ (exists body, getAsset W mintId = Body body
                   /\ JS.truthy (JS.prop body "result") = false) ->
  exists info,
    result (fetchAssetInfo W mintId) = Ok info
    /\ JS.truthy (metadataOf info "name") = false
    /\ JS.truthy (imageOf info) = false.
Proof.
  unfold fetchAssetInfo.
  intros [-> | [-> | (body & -> & Hfalsy)]].
  - exists JS.Null; repeat split.
  - exists JS.Null; repeat split.
  - cbn; rewrite get_eq.
    destruct (JS.nullish body) eqn:Hnull.
    + exists JS.Null; repeat split.
    + exists (JS.prop body "result"); cbn.
      split; [ reflexivity | ].
      destruct (JS.prop body "result") as [ | | b | n | str | items | fields ];
        try discriminate; split; reflexivity.
Qed.

Lemma primitive_or (a : JS.value) (s : string) :
  JS.primitive a = true -> JS.primitive (JS.or a (JS.Str s)) = true.
Proof. unfold JS.or; destruct (JS.truthy a); [ trivial | reflexivity ]. Qed.

(** X6.  When the metadata lookup for a trade's input token fails (the
    request fails, the body is not JSON, or the answer carries no result,
    as an error response does), the first variant still prints the card of
    the trade, provided that the rest of the card can be made: the
    signature is a string, the name of the output token, if it has one,
    is a primitive, and the URL of its picture can be converted to text.
    On the card the input token is named "Unknown",
    its picture is the one of the default token icon, and its mint and
    amount are those of the trade. *)
Theorem missing_metadata_gives_placeholders :
  forall (W : World) (tx : parsedTx) (m : txMeta) (signature : string)
         (t : trade),
    getAsset W (mint (inputToken t)) = NetFail
    \/ getAsset W (mint (inputToken t)) = BadBody
    \/ (exists body, getAsset W (mint (inputToken t)) = Body body
                     /\ JS.truthy (JS.prop body "result") = false) ->
    JS.primitive (metadataOf (assetInfoOf W (mint (outputToken t))) "name") = true ->
    JS.convertible (imageUrlOf (assetInfoOf W (mint (outputToken t)))) = true ->
    result (renderTrade W tx m (JS.Str signature) t) = Ok tt
    /\ exists c,
         cards (trace (renderTrade W tx m (JS.Str signature) t)) = [c]
         /\ ct_name (c_inputToken c) = JS.Str "Unknown"
         /\ ct_image (c_inputToken c)
            = tokenImage W (JS.Str CONFIG.DEFAULT_TOKEN_ICON)
         /\ ct_mint (c_inputToken c) = mint (inputToken t)
         /\ ct_amount (c_inputToken c) = orZero (amount (inputToken t)).
Proof.
  intros W tx m signature t Hmissing Hout Hurl.
  destruct (fetchAssetInfo_missing W _ Hmissing) as (info & Hinfo & Hname & Himage).
  assert (Hin : assetInfoOf W (mint (inputToken t)) = info)
    by (unfold assetInfoOf; now rewrite Hinfo).
  assert (Hplain : cardPrinted W tx m (JS.Str signature) t = true).
  { unfold cardPrinted; rewrite Hurl, Hin.
    unfold imageUrlOf at 1, JS.or at 1; rewrite Himage; cbn [JS.convertible andb].
    unfold cardReturns, plainCard, cardOf, cardTokenOf.
    cbn [c_inputToken c_outputToken c_signature ct_name].
    rewrite Hin; unfold JS.or at 1; rewrite Hname.
    now rewrite (primitive_or _ _ Hout). }
  rewrite (proj1 (renderTrade_shape W tx m (JS.Str signature) t) Hplain).
  split; [ reflexivity | ].
  exists (cardOf W tx m (JS.Str signature) t); split.
  - destruct (hushed_lookupBoth (fun ev => match ev with PrintCard c => [c] | _ => [] end)
                W (mint (inputToken t)) (mint (outputToken t))) as [Hquiet _];
      try reflexivity.
    unfold cards; rewrite trace_pair, observe_app, Hquiet; reflexivity.
  - unfold cardOf, cardTokenOf, JS.or;
      cbn [c_inputToken ct_name ct_image ct_mint ct_amount].
    rewrite Hin, Hname, Himage; repeat split.
Qed.

Lemma missing_metadata_gives_placeholders_witness :
  exists c,
    cards (trace (renderTrade Demo.world Demo.swapTx (mkMeta 2000000 false)
                    (JS.Str "sigA") Demo.sell)) = [c]
    /\ ct_name (c_inputToken c) = JS.Str "Unknown"
    /\ ct_image (c_inputToken c)
       = tokenImage Demo.world (JS.Str CONFIG.DEFAULT_TOKEN_ICON)
    /\ ct_mint (c_inputToken c) = mint (inputToken Demo.sell)
    /\ ct_amount (c_inputToken c) = orZero (amount (inputToken Demo.sell)).
Proof.
  apply (proj2 (missing_metadata_gives_placeholders Demo.world Demo.swapTx
                  (mkMeta 2000000 false) "sigA" Demo.sell
                  (or_introl eq_refl) eq_refl eq_refl)).
Defined.

(** X7.  getTokenDetails of the second variant prints nothing.  It throws
    exactly when the token information is present and either one of the
    values it shows in a template literal (name, symbol, id, image,
    decimals) is truthy and cannot be converted to text, or the supply is
    truthy and not a number.  Otherwise it returns a list that is never
    empty, and for missing token information the single line "No token
    information available". *)
Theorem token_details_throw_on_unprintable_values :
  forall (info : JS.value),
    trace (getTokenDetails info) = []
    /\ ((exists e, result (getTokenDetails info) = Throw e)
        <-> detailsPrintable info = false)
    /\ (forall l, result (getTokenDetails info) = Ok l -> l <> [])
    /\ (JS.truthy info = false ->
        getTokenDetails info
        = ([], Ok [("No token information available", JS.Undefined)])).
Proof.
  intros info.
  destruct (getTokenDetails_result info) as (Htrace & Hok & Hthrow).
  split; [ exact Htrace | ].
  split; [ | split ].
  - split; [ | exact Hthrow ].
    intros [e He]; destruct (detailsPrintable info); [ | reflexivity ].
    destruct (Hok eq_refl) as (l & Hl & _); congruence.
  - intros l Hl; destruct (detailsPrintable info).
    + destruct (Hok eq_refl) as (l' & Hl' & Hne); congruence.
    + destruct (Hthrow eq_refl) as (e & He); congruence.
  - intros Hinfo; unfold getTokenDetails; rewrite Hinfo; reflexivity.
Qed.

(** ** What a render prints *)






(** ** Edges of the fetch command *)

(** X10.  When the provider's answer to a fetch carries nothing to
    iterate (no [result], as in an error response; [null]; an empty
    array), the run reports "No transactions found" after its single
    request, renders nothing and returns normally. *)
Theorem fetch_without_signatures_reports_none :
  forall (v : variant) (W : World) (wallet : string) (limit : option Z) (body : JS.value),
    isPublicKey W wallet = true ->
    JS.nullish body = false ->
    JS.truthy (JS.prop (JS.prop body "result") "length") = false ->
    fetchTransactions v W wallet limit (Body body) =
    ([Out SpinStart "Fetching transactions..." [];
      RpcCall "getSignaturesForAddress" wallet limit;
      Out SpinFail "No transactions found" []],
     Ok tt).
Proof.
  intros v W wallet limit body Hkey Hnull Hlen.
  unfold fetchTransactions, newPublicKey; rewrite Hkey.
  unfold ret at 1; rewrite bind_ret_l.
  cbn [responseJson]; unfold ret at 1.
  rewrite (bind_eq (emit _)); cbn [emit result trace fst snd].
  rewrite bind_ret_l, get_eq, Hnull, bind_ret_l, Hlen.
  reflexivity.
Qed.

Lemma fetch_without_signatures_reports_none_witness :
  fetchTransactions Second Demo.world Demo.wallet (Some 5)
    (Body (JS.Obj [("jsonrpc", JS.Str "2.0");
                   ("error", JS.Obj [("code", JS.Num (-32602));
                                     ("message", JS.Str "Invalid param")])])) =
  ([Out SpinStart "Fetching transactions..." [];
    RpcCall "getSignaturesForAddress" Demo.wallet (Some 5);
    Out SpinFail "No transactions found" []],
   Ok tt).
Proof.
  apply (fetch_without_signatures_reports_none Second Demo.world Demo.wallet (Some 5));
    reflexivity.
Defined.








(** ** How the limit is read *)

Lemma digitValue_digitChar (d : Z) :
  0 <= d <= 9 -> digitValue (digitChar d) = Some d.
Proof.
  intros Hd.
  assert (Hcases : d = 0 \/ d = 1 \/ d = 2 \/ d = 3 \/ d = 4 \/ d = 5
                   \/ d = 6 \/ d = 7 \/ d = 8 \/ d = 9) by lia.
  repeat (destruct Hcases as [-> | Hcases]; [ reflexivity | ]).
  now subst.
Qed.

Lemma readDigits_numeral (ds : list Z) :
  forall acc,
    Forall (fun d => 0 <= d < 5) ds ->
    readDigits 5 (numeral ds) (Some acc)
    = Some (fold_left (fun a d => a * 5 + d) ds acc).
Proof.
  induction ds as [ | d rest IH ]; intros acc Hall; [ reflexivity | ].
  inversion Hall as [ | ? ? Hd Hrest ]; subst.
  cbn [numeral readDigits fold_left].
  rewrite digitValue_digitChar by lia.
  replace (d <? 5) with true by (symmetry; apply Z.ltb_lt; lia).
  apply IH, Hrest.
Qed.

Lemma parseInt_numeral (d : Z) (ds : list Z) :
  0 <= d <= 9 ->
  parseInt (numeral (d :: ds)) (Some 5) = readDigits 5 (numeral (d :: ds)) None.
Proof.
  intros Hd.
  assert (Hcases : d = 0 \/ d = 1 \/ d = 2 \/ d = 3 \/ d = 4 \/ d = 5
                   \/ d = 6 \/ d = 7 \/ d = 8 \/ d = 9) by lia.
  assert (Hone : forall r : option Z, option_map (Z.mul 1) r = r).
  { intros [ z | ]; [ | reflexivity ].
    cbn [option_map]; now rewrite Z.mul_1_l. }
  repeat (destruct Hcases as [-> | Hcases];
          [ unfold parseInt; cbn [numeral]; apply Hone | ]).
  subst; unfold parseInt; cbn [numeral]; apply Hone.
Qed.

(** X18.  The text given to [-l] or [--limit] is not read as a decimal
    number: the parser gets the option's default 5 as its radix.  A text
    of digits from 0 to 4 is read as a numeral in base 5, and the request
    asks for that value, capped at 100: [-l 10] asks for 5 signatures.  A
    text that starts with a digit from 5 to 9 gives [NaN], and the request
    then carries no number as its limit. *)
Theorem limit_text_is_read_in_base_five :
  forall (v : variant) (W : World) (e : env) (wallet : string) (resp : http)
         (d : Z) (ds : list Z),
    isPublicKey W wallet = true ->
    (0 <= d < 5 ->
     Forall (fun x => 0 <= x < 5) ds ->
     requestedLimits
       (trace (fetchAction v W e wallet (Some (numeral (d :: ds))) resp))
     = [Some (Z.min (valueInRadix 5 (d :: ds)) 100)])
    /\ (5 <= d <= 9 ->
        requestedLimits
          (trace (fetchAction v W e wallet (Some (numeral (d :: ds))) resp))
        = [None]).
Proof.
  intros v W e wallet resp d ds Hkey.
  rewrite fetchAction_eq.
  rewrite (proj1 (fetchTransactions_limit v W wallet _ resp Hkey)).
  unfold requestLimit, optionsLimit.
  split.
  - intros Hd Hall.
    rewrite parseInt_numeral by lia.
    cbn [numeral readDigits].
    rewrite digitValue_digitChar by lia.
    replace (d <? 5) with true by (symmetry; apply Z.ltb_lt; lia).
    rewrite readDigits_numeral by assumption.
    reflexivity.
  - intros Hd.
    rewrite parseInt_numeral by lia.
    cbn [numeral readDigits].
    rewrite digitValue_digitChar by lia.
    replace (d <? 5) with false by (symmetry; apply Z.ltb_ge; lia).
    reflexivity.
Qed.

Lemma limit_text_is_read_in_base_five_witness :
  requestedLimits
    (trace (fetchAction First Demo.world Demo.withKey Demo.wallet (Some "10")
              (Demo.answer ["sigA"])))
  = [Some 5].
Proof.
  apply (proj1 (limit_text_is_read_in_base_five First Demo.world Demo.withKey
                  Demo.wallet (Demo.answer ["sigA"]) 1 [0] eq_refl)).
  - lia.
  - repeat constructor; lia.
Defined.

(** ** The lines of a card *)

Lemma length_append (a b : string) :
  String.length (a ++ b) = (String.length a + String.length b)%nat.
Proof. induction a as [ | c a IH ]; simpl; [ reflexivity | now rewrite IH ]. Qed.

Lemma string_append_assoc (a b c : string) : ((a ++ b) ++ c = a ++ (b ++ c))%string.
Proof. induction a as [ | x a IH ]; simpl; [ reflexivity | now rewrite IH ]. Qed.

Lemma length_sliceTo (n : nat) (s : string) :
  String.length (sliceTo n s) = Nat.min n (String.length s).
Proof.
  revert s; induction n as [ | n IH ]; intros [ | c s ]; simpl; auto.
Qed.

Lemma length_dropStr (n : nat) (s : string) :
  String.length (dropStr n s) = (String.length s - n)%nat.
Proof.
  revert s; induction n as [ | n IH ]; intros [ | c s ]; simpl; auto.
Qed.

Lemma sliceTo_append (n : nat) (a b : string) :
  (n <= String.length a)%nat -> sliceTo n (a ++ b) = sliceTo n a.
Proof.
  revert a; induction n as [ | n IH ]; intros [ | c a ] H; simpl in *;
    try reflexivity; try lia.
  f_equal; apply IH; lia.
Qed.

Lemma sliceTo_sliceTo (n : nat) (s : string) : sliceTo n (sliceTo n s) = sliceTo n s.
Proof.
  revert s; induction n as [ | n IH ]; intros [ | c s ]; simpl; auto.
  now rewrite IH.
Qed.

Lemma sliceTo_all (n : nat) (s : string) :
  (String.length s <= n)%nat -> sliceTo n s = s.
Proof.
  revert s; induction n as [ | n IH ]; intros [ | c s ] H; simpl in *;
    try reflexivity; try lia.
  f_equal; apply IH; lia.
Qed.

Lemma dropStr_append (a b : string) : dropStr (String.length a) (a ++ b) = b.
Proof. induction a as [ | c a IH ]; simpl; [ destruct b; reflexivity | exact IH ]. Qed.

Lemma dropStr_none (n : nat) (s : string) :
  (String.length s <= n)%nat -> dropStr n s = EmptyString.
Proof.
  revert s; induction n as [ | n IH ]; intros [ | c s ] H; simpl in *;
    try reflexivity; try lia.
  apply IH; lia.
Qed.

Lemma sliceLast_append (n : nat) (a b : string) :
  String.length b = n -> sliceLast n (a ++ b) = b.
Proof.
  intros Hb; unfold sliceLast.
  rewrite length_append, Hb, Nat.add_sub; apply dropStr_append.
Qed.

Lemma length_sliceLast (n : nat) (s : string) :
  String.length (sliceLast n s) = Nat.min n (String.length s).
Proof. unfold sliceLast; rewrite length_dropStr; lia. Qed.

(** X14.  On a card a token's name takes at most ten characters: a name
    of up to ten characters is shown whole, a longer one as its first
    eight characters followed by two dots.  A mint of eight characters or
    more is shown as ten characters, its first four and its last four
    around two dots; a mint of at most four characters is shown twice
    around the dots. *)
Theorem card_names_and_mints_are_shortened :
  forall (s : string),
    (String.length (shortName s) <= 10)%nat
    /\ ((String.length s <= 10)%nat -> shortName s = s)
    /\ ((10 < String.length s)%nat ->
        String.length (shortName s) = 10%nat
        /\ sliceTo 8 (shortName s) = sliceTo 8 s
        /\ sliceLast 2 (shortName s) = "..")
    /\ ((8 <= String.length s)%nat ->
        String.length (mintShort s) = 10%nat
        /\ sliceTo 4 (mintShort s) = sliceTo 4 s
        /\ sliceLast 4 (mintShort s) = sliceLast 4 s)
    /\ ((String.length s <= 4)%nat -> mintShort s = s ++ ".." ++ s).
Proof.
  intros s.
  assert (Hlong : (10 < String.length s)%nat ->
                  String.length (shortName s) = 10%nat
                  /\ sliceTo 8 (shortName s) = sliceTo 8 s
                  /\ sliceLast 2 (shortName s) = "..").
  { intros H; unfold shortName.
    destruct (Nat.ltb_spec 10 (String.length s)) as [ _ | Hle ]; [ | lia ].
    split; [ rewrite length_append, length_sliceTo; cbn [String.length]; lia | ].
    split.
    - rewrite sliceTo_append by (rewrite length_sliceTo; lia).
      apply sliceTo_sliceTo.
    - now apply sliceLast_append. }
  split.
  { destruct (Nat.ltb_spec 10 (String.length s)) as [ Hlt | Hle ].
    - destruct (Hlong Hlt) as [-> _]; lia.
    - unfold shortName.
      destruct (Nat.ltb_spec 10 (String.length s)); [ lia | assumption ]. }
  split.
  { intros H; unfold shortName.
    destruct (Nat.ltb_spec 10 (String.length s)); [ lia | reflexivity ]. }
  split; [ exact Hlong | ].
  split.
  - intros H; unfold mintShort.
    split; [ rewrite !length_append, length_sliceTo, length_sliceLast;
             cbn [String.length]; lia | ].
    split.
    + rewrite sliceTo_append by (rewrite length_sliceTo; lia).
      apply sliceTo_sliceTo.
    + rewrite <- string_append_assoc.
      apply sliceLast_append; rewrite length_sliceLast; lia.
  - intros H; unfold mintShort, sliceLast.
    rewrite sliceTo_all by lia.
    replace (String.length s - 4)%nat with 0%nat by lia.
    destruct s; reflexivity.
Qed.

Lemma card_names_and_mints_are_shortened_witness :
  String.length (mintShort CONFIG.SOL_MINT) = 10%nat
  /\ sliceTo 4 (mintShort CONFIG.SOL_MINT) = sliceTo 4 CONFIG.SOL_MINT
  /\ sliceLast 4 (mintShort CONFIG.SOL_MINT) = sliceLast 4 CONFIG.SOL_MINT.
Proof.
  apply (proj1 (proj2 (proj2 (proj2
           (card_names_and_mints_are_shortened CONFIG.SOL_MINT))))).
  simpl; lia.
Defined.

(** X15.  On the card of a trade, the line meant for SOL shows the
    trade's input token when the card is a BUY, and that token is SOL; on
    a SELL card it shows the output token, and the other line shows the
    input token, which is not SOL.  The border is green exactly for a
    BUY. *)
Theorem card_sides_follow_the_label :
  forall (W : World) (tx : parsedTx) (m : txMeta) (signature : JS.value)
         (t : trade),
    let c := cardOf W tx m signature t in
    (mint (inputToken t) = CONFIG.SOL_MINT ->
     c_type c = "BUY"
     /\ solToken c = c_inputToken c
     /\ ct_mint (solToken c) = CONFIG.SOL_MINT
     /\ nonSolToken c = c_outputToken c
     /\ borderColor c = "green")
    /\ (mint (inputToken t) <> CONFIG.SOL_MINT ->
        c_type c = "SELL"
        /\ solToken c = c_outputToken c
        /\ nonSolToken c = c_inputToken c
        /\ ct_mint (nonSolToken c) <> CONFIG.SOL_MINT
        /\ borderColor c = "red").
Proof.
  intros W tx m signature t c; subst c.
  unfold solToken, nonSolToken, borderColor, cardOf; cbn [c_type c_inputToken c_outputToken].
  unfold transactionType, isBuy.
  destruct (String.eqb_spec (mint (inputToken t)) CONFIG.SOL_MINT) as [Heq | Hne].
  - split; [ intros _ | intros H; contradiction ].
    cbn [String.eqb Ascii.eqb Bool.eqb]; repeat split; assumption.
  - split; [ intros H; contradiction | intros _ ].
    cbn [String.eqb Ascii.eqb Bool.eqb]; repeat split; assumption.
Qed.

Lemma card_sides_follow_the_label_witness :
  c_type (cardOf Demo.world Demo.swapTx (mkMeta 2000000 false) (JS.Str "sigA") Demo.buy)
  = "BUY"
  /\ ct_mint (solToken (cardOf Demo.world Demo.swapTx (mkMeta 2000000 false)
                          (JS.Str "sigA") Demo.buy)) = CONFIG.SOL_MINT.
Proof.
  destruct (proj1 (card_sides_follow_the_label Demo.world Demo.swapTx
                     (mkMeta 2000000 false) (JS.Str "sigA") Demo.buy) eq_refl)
    as (Htype & _ & Hmint & _).
  split; [ exact Htype | exact Hmint ].
Defined.

(** ** The image cache *)

Lemma cacheKey_injective (a b : string) : cacheKey a = cacheKey b -> a = b.
Proof. unfold cacheKey; simpl; intros H; now injection H. Qed.

(** X17.  A download that succeeds is remembered: any later call for the
    same URL, made with the cache it left, returns the same picture
    without a request, whatever the network does by then.  A download
    that fails is not remembered: it returns [null], leaves the cache as
    it was, and the next call asks again.  Neither changes what the cache
    holds for another URL. *)
Theorem image_cache_remembers_successful_downloads :
  forall (net net' : string -> option string) (cache : imageCache) (url : string),
    let '(t, r, cache') := downloadAndCacheImage net cache url in
    (forall buffer,
        r = Some buffer ->
        downloadAndCacheImage net' cache' url = ([], Some buffer, cache'))
    /\ (r = None ->
        cache' = cache
        /\ t = [HttpGet url; DownloadError url]
        /\ downloadAndCacheImage net' cache' url
           = match net' url with
             | Some buffer =>
                 ([HttpGet url], Some buffer, cacheSet (cacheKey url) buffer cache)
             | None => ([HttpGet url; DownloadError url], None, cache)
             end)
    /\ (forall other,
           other <> url ->
           cacheGet (cacheKey other) cache' = cacheGet (cacheKey other) cache).
Proof.
  intros net net' cache url.
  unfold downloadAndCacheImage.
  destruct (cacheGet (cacheKey url) cache) as [ cached | ] eqn:Hget.
  - split; [ intros buffer H; injection H as <-; now rewrite Hget | ].
    split; [ intros H; discriminate | reflexivity ].
  - destruct (net url) as [ buffer | ].
    + split.
      { intros b H; injection H as <-.
        unfold cacheSet; cbn [cacheGet]; now rewrite String.eqb_refl. }
      split; [ intros H; discriminate | ].
      intros other Hne; unfold cacheSet; cbn [cacheGet].
      destruct (String.eqb_spec (cacheKey other) (cacheKey url)) as [Heq | _];
        [ | reflexivity ].
      exfalso; apply Hne; now apply cacheKey_injective.
    + split; [ intros b H; discriminate | ].
      split; [ | reflexivity ].
      intros _; rewrite Hget; repeat split.
Qed.

Lemma image_cache_remembers_successful_downloads_witness :
  downloadAndCacheImage (fun _ => None)
    (cacheSet (cacheKey "https://example.org/a.png") "PNG" [])
    "https://example.org/a.png"
  = ([], Some "PNG", cacheSet (cacheKey "https://example.org/a.png") "PNG" []).
Proof.
  apply (proj1 (image_cache_remembers_successful_downloads
                  (fun _ => Some "PNG") (fun _ => None) []
                  "https://example.org/a.png") "PNG").
  reflexivity.
Defined.

Lemma heartbeat_only_on_open_sockets_witness :
  In 0%nat (subscriptions (trace (session Second Demo.world Demo.wallet
                                    [Opened 0; IntervalFired 0]))).
Proof.
  apply (proj1 (heartbeat_only_on_open_sockets Second Demo.world Demo.wallet)
           [Opened 0; IntervalFired 0] 0%nat).
  vm_compute; left; reflexivity.
Defined.

Lemma token_details_throw_on_unprintable_values_witness :
  exists e,
    result (getTokenDetails
              (JS.Obj [("id", JS.Str "mint");
                       ("content", JS.Obj [("metadata",
                          JS.Obj [("name", JS.Obj [("toString", JS.Num 1)])])])]))
    = Throw e.
Proof.
  apply (proj2 (proj1 (proj2 (token_details_throw_on_unprintable_values
                                (JS.Obj [("id", JS.Str "mint");
                                         ("content", JS.Obj [("metadata",
                                            JS.Obj [("name",
                                               JS.Obj [("toString", JS.Num 1)])])])]))))).
  reflexivity.
Defined.
